(** * The scratch-file buffer of ed (buf.c)

    A shallow embedding of the scratch-file routines and of the line queue
    of the ed line editor, and the properties of its specification.

    Conventions of the embedding.
    - A [line_t *] is an address ([nat]); [NULL] is address 0 and the static
      object [buffer_head] lives at address 1.  The line nodes live in a heap
      [gmap nat line_t], which always holds [buffer_head].
    - C integers ([int], [size_t], [tp_ftell]) are integers of [Z]; signed
      overflow is undefined in C, so no wrap-around is written out, and the
      development covers the executions whose counters stay in range.
    - Every function takes the editor state and gives back [option] of the
      new state and the returned value: [None] stands for an execution the
      C standard leaves undefined (a load through a pointer to no object, a
      scan that runs off its buffer, the use of a closed stream) and, for
      the one unbounded loop, for fuel that ran out.
    - What the operating system decides (an allocation, a seek, a transfer
      that fails) is read from an [env] value given to the call.
    - [perror] only prints; [SPL1]/[SPL0] only defer signals.  Neither
      changes the state modelled here. *)

From Stdlib Require Import ZArith Ascii String.
From stdpp Require Import gmap strings list fin_maps.

Local Open Scope Z_scope.

(** ** Data model *)

Abbreviation ptr := nat (only parsing).

Definition NULL : ptr := 0%nat.
Definition buffer_head : ptr := 1%nat.

(** The line node [line_t] of ed.h, with the fields buf.c uses: the queue
    links, the offset of the line in the scratch file and its length. *)
Record line_t := Line {
  q_forw : ptr;
  q_back : ptr;
  adr : Z;
  llen : Z
}.

(** The scratch file behind [sfp]: its bytes and the position of the stream. *)
Record file := File {
  f_data : list ascii;
  f_pos : Z
}.

(** What [sfp] points to: nothing, an open stream, or a stream that [fclose]
    has already disposed of (the pointer dangles). *)
Inductive stream :=
| NoStream
| OpenStream (f : file)
| ClosedStream.

(** The statics of buf.c, the globals [addr_last], [current_addr] and the
    error message of the editor, and the name of the scratch file in the
    file system. *)
Record ed_state := State {
  sfp : stream;
  sfpos : Z;
  seek_write : bool;
  heap : gmap nat line_t;
  addr_last : Z;
  current_addr : Z;
  ga_lp : ptr;            (* static lp of get_addressed_line_node *)
  ga_on : Z;              (* static on of get_addressed_line_node *)
  errmsg : string;
  sfn_linked : bool       (* the scratch file has a name in the file system *)
}.

(** The decisions of the environment during one call. *)
Record env := Env {
  malloc_fails : bool;
  seek_fails : bool;
  realloc_fails : bool;
  io_fault : option nat;  (* a transfer stops after this many bytes *)
  fclose_fails : bool;
  mkstemp_fails : bool;
  fdopen_fails : bool
}.

Definition no_faults : env := Env false false false None false false false.

(** Environments in which one call fails: the seek, the fclose, the write
    after one byte. *)
Definition seek_fault : env := Env false true false None false false false.
Definition close_fault : env := Env false false false None true false false.
Definition write_fault : env :=
  Env false false false (Some 1%nat) false false false.

Definition set_sfp (x : stream) (st : ed_state) : ed_state :=
  State x (sfpos st) (seek_write st) (heap st) (addr_last st)
        (current_addr st) (ga_lp st) (ga_on st) (errmsg st) (sfn_linked st).

Definition set_sfpos (x : Z) (st : ed_state) : ed_state :=
  State (sfp st) x (seek_write st) (heap st) (addr_last st)
        (current_addr st) (ga_lp st) (ga_on st) (errmsg st) (sfn_linked st).

Definition set_seek_write (x : bool) (st : ed_state) : ed_state :=
  State (sfp st) (sfpos st) x (heap st) (addr_last st)
        (current_addr st) (ga_lp st) (ga_on st) (errmsg st) (sfn_linked st).

Definition set_heap (x : gmap nat line_t) (st : ed_state) : ed_state :=
  State (sfp st) (sfpos st) (seek_write st) x (addr_last st)
        (current_addr st) (ga_lp st) (ga_on st) (errmsg st) (sfn_linked st).

Definition set_addr_last (x : Z) (st : ed_state) : ed_state :=
  State (sfp st) (sfpos st) (seek_write st) (heap st) x
        (current_addr st) (ga_lp st) (ga_on st) (errmsg st) (sfn_linked st).

Definition set_current_addr (x : Z) (st : ed_state) : ed_state :=
  State (sfp st) (sfpos st) (seek_write st) (heap st) (addr_last st)
        x (ga_lp st) (ga_on st) (errmsg st) (sfn_linked st).

Definition set_cache (on : Z) (lp : ptr) (st : ed_state) : ed_state :=
  State (sfp st) (sfpos st) (seek_write st) (heap st) (addr_last st)
        (current_addr st) lp on (errmsg st) (sfn_linked st).

Definition seterrmsg (s : string) (st : ed_state) : ed_state :=
  State (sfp st) (sfpos st) (seek_write st) (heap st) (addr_last st)
        (current_addr st) (ga_lp st) (ga_on st) s (sfn_linked st).

Definition set_sfn_linked (x : bool) (st : ed_state) : ed_state :=
  State (sfp st) (sfpos st) (seek_write st) (heap st) (addr_last st)
        (current_addr st) (ga_lp st) (ga_on st) (errmsg st) x.

(** ** The line queue *)

(** [p->q_forw] and [p->q_back]; [None] when [p] points to no node. *)
Definition forw (h : gmap nat line_t) (p : ptr) : option ptr :=
  q_forw <$> h !! p.

Definition back (h : gmap nat line_t) (p : ptr) : option ptr :=
  q_back <$> h !! p.

Definition store_forw (p x : ptr) (h : gmap nat line_t) : option (gmap nat line_t) :=
  nd ← h !! p; Some (<[p := Line x (q_back nd) (adr nd) (llen nd)]> h).

Definition store_back (p x : ptr) (h : gmap nat line_t) : option (gmap nat line_t) :=
  nd ← h !! p; Some (<[p := Line (q_forw nd) x (adr nd) (llen nd)]> h).

(** Modelled from the spec: the macro REQUE of ed.h is not in the source
    file.  It links [pred] before [succ]:
    [pred->q_forw = succ, succ->q_back = pred]. *)
Definition REQUE (pred succ : ptr) (h : gmap nat line_t) : option (gmap nat line_t) :=
  h1 ← store_forw pred succ h; store_back succ pred h1.

(** Modelled from the spec: the macro INSQUE of ed.h is not in the source
    file.  It links [elem] immediately after [pred]:
    [REQUE(elem, pred->q_forw); REQUE(pred, elem)]. *)
Definition INSQUE (elem pred : ptr) (h : gmap nat line_t) : option (gmap nat line_t) :=
  succ ← forw h pred;
  h1 ← REQUE elem succ h;
  REQUE pred elem h1.

(** [for (; on < n; on++) lp = lp->q_forw;] run for its [k] iterations. *)
Fixpoint loop_up (h : gmap nat line_t) (k : nat) (on : Z) (lp : ptr) : option (Z * ptr) :=
  match k with
  | O => Some (on, lp)
  | S k' => lp' ← forw h lp; loop_up h k' (on + 1) lp'
  end.

(** [for (; on > n; on--) lp = lp->q_back;] run for its [k] iterations. *)
Fixpoint loop_down (h : gmap nat line_t) (k : nat) (on : Z) (lp : ptr) : option (Z * ptr) :=
  match k with
  | O => Some (on, lp)
  | S k' => lp' ← back h lp; loop_down h k' (on - 1) lp'
  end.

(** get_addressed_line_node: return pointer to a line node in the editor
    buffer.  A loop [for (; on < n; on++)] runs [n - on] times when
    [on < n] and not at all otherwise, which is [Z.to_nat (n - on)]. *)
Definition get_addressed_line_node (n : Z) (st : ed_state) : option (ed_state * ptr) :=
  let h := heap st in
  let on := ga_on st in
  let lp := ga_lp st in
  r ← (if decide (n > on) then
         if decide (n <= Z.shiftr (on + addr_last st) 1) then
           loop_up h (Z.to_nat (n - on)) on lp
         else
           lp0 ← back h buffer_head;
           loop_down h (Z.to_nat (addr_last st - n)) (addr_last st) lp0
       else
         if decide (n >= Z.shiftr on 1) then
           loop_down h (Z.to_nat (on - n)) on lp
         else
           loop_up h (Z.to_nat (n - 0)) 0 buffer_head);
  Some (set_cache r.1 r.2 st, r.2).

(** add_line_node: add a line node in the editor buffer after the current
    line. *)
Definition add_line_node (lp : ptr) (st : ed_state) : option ed_state :=
  r ← get_addressed_line_node (current_addr st) st;
  h ← INSQUE lp r.2 (heap r.1);
  let st1 := set_heap h r.1 in
  let st2 := set_addr_last (addr_last st1 + 1) st1 in
  Some (set_current_addr (current_addr st2 + 1) st2).

(** The loop of get_line_node_addr,
    [while (cp != lp && (cp = cp->q_forw) != &buffer_head) n++;],
    with fuel: it gives the final [cp] and [n]. *)
Fixpoint addr_loop (fuel : nat) (h : gmap nat line_t) (lp cp : ptr) (n : Z) : option (ptr * Z) :=
  match fuel with
  | O => None
  | S fuel' =>
      if decide (cp = lp) then Some (cp, n)
      else
        cp' ← forw h cp;
        if decide (cp' = buffer_head) then Some (cp', n)
        else addr_loop fuel' h lp cp' (n + 1)
  end.

(** ** The standard I/O calls on the scratch file *)

Inductive whence := SEEK_SET | SEEK_END.

Definition the_file (s : stream) : option file :=
  match s with
  | OpenStream f => Some f
  | _ => None
  end.

(** [do_fseek], the seek of ed.h on a stream: [None] is the return value
    -1, which leaves the position where it was.  A seek before the start
    of the file fails. *)
Definition do_fseek (e : env) (f : file) (off : Z) (w : whence) : option file :=
  if seek_fails e then None
  else
    let pos := match w with
               | SEEK_SET => off
               | SEEK_END => Z.of_nat (length (f_data f)) + off
               end in
    if decide (pos < 0) then None else Some (File (f_data f) pos).

(** [do_ftell], the tell of ed.h on a stream.  The code does not test its
    result; the call is taken to succeed on an open stream. *)
Definition do_ftell (f : file) : Z := f_pos f.

(** How many of [want] bytes a transfer moves. *)
Definition transfer (e : env) (want : nat) : nat :=
  match io_fault e with
  | None => want
  | Some k => Nat.min k want
  end.

(** [fread(buf, 1, len, sfp)]: the bytes read and the stream after it. *)
Definition fread (e : env) (len : Z) (f : file) : list ascii * file :=
  let got := take (transfer e (Z.to_nat len))
                  (drop (Z.to_nat (f_pos f)) (f_data f)) in
  (got, File (f_data f) (f_pos f + Z.of_nat (length got))).

(** The bytes of a file after [bs] is written at offset [pos]; a gap
    between the end of the file and [pos] reads as zero bytes. *)
Definition write_at (pos : nat) (bs data : list ascii) : list ascii :=
  match bs with
  | [] => data
  | _ => take pos data ++ replicate (pos - length data)%nat zero
           ++ bs ++ drop (pos + length bs)%nat data
  end.

(** [fwrite(cs, 1, len, sfp)]: the count written and the stream after it. *)
Definition fwrite (e : env) (bs : list ascii) (f : file) : nat * file :=
  let out := take (transfer e (length bs)) bs in
  (length out,
   File (write_at (Z.to_nat (f_pos f)) out (f_data f))
        (f_pos f + Z.of_nat (length out))).

(** [malloc(sizeof(line_t))]: [None] is NULL; otherwise an address that is
    not NULL and holds no object. *)
Definition malloc (e : env) (h : gmap nat line_t) : option ptr :=
  if malloc_fails e then None else Some (fresh ({[NULL]} ∪ dom h)).

Definition free (p : ptr) (h : gmap nat line_t) : gmap nat line_t := delete p h.

Definition store_llen (p : ptr) (x : Z) (h : gmap nat line_t) : option (gmap nat line_t) :=
  nd ← h !! p; Some (<[p := Line (q_forw nd) (q_back nd) (adr nd) x]> h).

Definition store_adr (p : ptr) (x : Z) (h : gmap nat line_t) : option (gmap nat line_t) :=
  nd ← h !! p; Some (<[p := Line (q_forw nd) (q_back nd) x (llen nd)]> h).

(** ** The scratch-file routines *)

Definition newline : ascii := "010"%char.

(** [for (s = cs; *s != '\n'; s++) ;] on a buffer holding [cs]: the text
    before the first newline and the text after it.  [None] when there is
    no newline, and the scan leaves the buffer. *)
Fixpoint scan_line (cs : list ascii) : option (list ascii * list ascii) :=
  match cs with
  | [] => None
  | c :: cs' =>
      if decide (c = newline) then Some ([], cs')
      else r ← scan_line cs'; Some (c :: r.1, r.2)
  end.

(** The part of get_sbuf_line from REALLOC to the end.
    Modelled from the spec: the macro REALLOC of ed.h is not in the source
    file.  It grows the read buffer when it is too small, and reports
    "out of memory" and returns NULL when the allocation fails; whether
    that happens is the environment's [realloc_fails]. *)
Definition get_sbuf_read (e : env) (len : Z) (st : ed_state) : option (ed_state * option (list ascii)) :=
  if realloc_fails e then Some (seterrmsg "out of memory" st, None)
  else
    f ← the_file (sfp st);
    let r := fread e len f in
    let st1 := set_sfp (OpenStream r.2) st in
    if decide (Z.of_nat (length r.1) ≠ len)
    then Some (seterrmsg "cannot read temp file" st1, None)
    else Some (set_sfpos (sfpos st1 + len) st1, Some r.1).

(** get_sbuf_line: get a line of text from the scratch file; return pointer
    to the text.  The returned [None] is NULL. *)
Definition get_sbuf_line (e : env) (lp : ptr) (st : ed_state) : option (ed_state * option (list ascii)) :=
  if decide (lp = buffer_head) then Some (st, None)
  else
    let st1 := set_seek_write true st in
    nd ← heap st1 !! lp;
    if decide (sfpos st1 ≠ adr nd) then
      let st2 := set_sfpos (adr nd) st1 in
      f ← the_file (sfp st2);
      match do_fseek e f (sfpos st2) SEEK_SET with
      | None => Some (seterrmsg "cannot seek temp file" st2, None)
      | Some f' => get_sbuf_read e (llen nd) (set_sfp (OpenStream f') st2)
      end
    else get_sbuf_read e (llen nd) st1.

(** An error exit of put_sbuf_line: the message is set, the node is freed
    and NULL is returned. *)
Definition put_sbuf_fail (msg : string) (lp : ptr) (st : ed_state) : ed_state * option (list ascii) :=
  (set_heap (free lp (heap st)) (seterrmsg msg st), None).

(** The part of put_sbuf_line from the fwrite to the end. *)
Definition put_sbuf_write (e : env) (lp : ptr) (text rest : list ascii) (st : ed_state) : option (ed_state * option (list ascii)) :=
  let len := Z.of_nat (length text) in
  f ← the_file (sfp st);
  let w := fwrite e text f in
  let st1 := set_sfp (OpenStream w.2) st in
  if decide (w.1 ≠ length text)
  then Some (put_sbuf_fail "cannot write temp file" lp (set_sfpos (-1) st1))
  else
    h1 ← store_llen lp len (heap st1);
    h2 ← store_adr lp (sfpos st1) h1;
    st2 ← add_line_node lp (set_heap h2 st1);
    Some (set_sfpos (sfpos st2 + len) st2, Some rest).

Section Routines.

(** The constants of ed.h, which is not in the source file: the error code
    and the bound on the length of a line. *)
Variable ERR : Z.
Variable LINECHARS : Z.

(** get_line_node_addr: return line number of pointer. *)
Definition get_line_node_addr (fuel : nat) (lp : ptr) (st : ed_state) : option (ed_state * Z) :=
  r ← addr_loop fuel (heap st) lp buffer_head 0;
  if decide (r.2 ≠ 0 ∧ r.1 = buffer_head)
  then Some (seterrmsg "invalid address" st, ERR)
  else Some (st, r.2).

(** put_sbuf_line: write a line of text to the scratch file and add a line
    node to the editor buffer; return a pointer to the end of the text.
    [cs] is the content of the buffer the argument points to; the returned
    [Some rest] is the text after the newline, [None] is NULL.  The fields
    of the node that malloc returns are indeterminate, and each is assigned
    before it is read; they start as zero here. *)
Definition put_sbuf_line (e : env) (cs : list ascii) (st : ed_state) : option (ed_state * option (list ascii)) :=
  match malloc e (heap st) with
  | None => Some (seterrmsg "out of memory" st, None)
  | Some lp =>
      let st1 := set_heap (<[lp := Line NULL NULL 0 0]> (heap st)) st in
      sc ← scan_line cs;
      if decide (Z.of_nat (length sc.1) >= LINECHARS)
      then Some (put_sbuf_fail "line too long" lp st1)
      else if seek_write st1 then
        f ← the_file (sfp st1);
        match do_fseek e f 0 SEEK_END with
        | None => Some (put_sbuf_fail "cannot seek temp file" lp st1)
        | Some f' =>
            let st2 := set_sfp (OpenStream f') st1 in
            let st3 := set_sfpos (do_ftell f') st2 in
            put_sbuf_write e lp sc.1 sc.2 (set_seek_write false st3)
        end
      else put_sbuf_write e lp sc.1 sc.2 st1
  end.

(** open_sbuf: open scratch file.  [mkstemp] and [fdopen] give a new, empty
    file open for reading and writing.  When [mkstemp] fails no file is
    made and [sfp] is not assigned; when [fdopen] fails [sfp] is NULL and
    the file is unlinked again.  The flags [isbinary] and [newline_added]
    of the editor are not part of the state modelled here. *)
Definition open_sbuf (e : env) (st : ed_state) : ed_state * Z :=
  if mkstemp_fails e then (seterrmsg "cannot open temp file" st, ERR)
  else if fdopen_fails e then
    (seterrmsg "cannot open temp file"
       (set_sfn_linked false (set_sfp NoStream st)), ERR)
  else (set_sfp (OpenStream (File [] 0)) (set_sfn_linked true st), 0).

(** close_sbuf: close scratch file. *)
Definition close_sbuf (e : env) (st : ed_state) : option (ed_state * Z) :=
  match sfp st with
  | ClosedStream => None
  | OpenStream f =>
      if fclose_fails e
      then Some (seterrmsg "cannot close temp file" (set_sfp ClosedStream st), ERR)
      else
        let st1 := set_sfp NoStream (set_sfn_linked false st) in
        Some (set_seek_write false (set_sfpos 0 st1), 0)
  | NoStream => Some (set_seek_write false (set_sfpos 0 st), 0)
  end.

(** init_buffers: open scratch buffer; initialise line queue.  [None] is
    the exit of the process through [quit(2)]. *)
Definition init_buffers (e : env) (st : ed_state) : option ed_state :=
  if malloc_fails e then None
  else
    let r := open_sbuf e st in
    if decide (r.2 < 0) then None
    else h ← REQUE buffer_head buffer_head (heap r.1); Some (set_heap h r.1).

End Routines.

(** The state of a process before [init_buffers]: the statics are zero,
    the cache of get_addressed_line_node is [(0, &buffer_head)]. *)
Definition boot_state : ed_state :=
  State NoStream 0 false {[ buffer_head := Line NULL NULL 0 0 ]} 0 0
        buffer_head 0 "" false.

(** ** The registry as the specification sees it *)

(** [k] hops along a link. *)
Fixpoint hops (next : ptr → option ptr) (k : nat) (p : ptr) : option ptr :=
  match k with
  | O => Some p
  | S k' => p' ← next p; hops next k' p'
  end.

(** The cache-free resolver of the specification: walk forward from the
    sentinel, counting hops. *)
Definition linear_node_at (h : gmap nat line_t) (n : Z) : option ptr :=
  hops (forw h) (Z.to_nat n) buffer_head.

(** A node is reachable when some number of forward hops from the sentinel
    ends on it. *)
Definition reachable (h : gmap nat line_t) (p : ptr) : Prop :=
  ∃ k, hops (forw h) k buffer_head = Some p.

(** The descriptor (offset, length) held by a node. *)
Definition descriptor (h : gmap nat line_t) (p : ptr) : option (Z * Z) :=
  (λ nd, (adr nd, llen nd)) <$> h !! p.

(** [chain next a ls b]: the link [next] leads from [a] through the nodes
    [ls], in order, to [b]. *)
Fixpoint chain (next : ptr → option ptr) (a : ptr) (ls : list ptr) (b : ptr) : Prop :=
  match ls with
  | [] => next a = Some b
  | x :: ls' => next a = Some x ∧ chain next x ls' b
  end.

(** The queue is a ring through the sentinel holding the lines [ls] in
    order; the backward links are the mirror image of the forward ones. *)
Definition ring (h : gmap nat line_t) (ls : list ptr) : Prop :=
  NoDup (buffer_head :: ls)
  ∧ chain (forw h) buffer_head ls buffer_head
  ∧ chain (back h) buffer_head (reverse ls) buffer_head.

(** The invariant of the registry: the ring holds the lines [ls],
    [addr_last] counts them, and the cache of get_addressed_line_node is a
    pair of an ordinal and the node at that ordinal. *)
Definition registry_ok (st : ed_state) (ls : list ptr) : Prop :=
  ring (heap st) ls
  ∧ heap st !! NULL = None
  ∧ addr_last st = Z.of_nat (length ls)
  ∧ 0 ≤ ga_on st ≤ addr_last st
  ∧ (buffer_head :: ls) !! Z.to_nat (ga_on st) = Some (ga_lp st).

(** The ordinal an argument of get_addressed_line_node ends on: the code
    has no range check, an ordinal outside [0, count] ends on the nearer
    end. *)
Definition clamp (n last : Z) : Z := Z.max 0 (Z.min n last).

(** The cursor is the real position of the open scratch file. *)
Definition cursor_ok (st : ed_state) : Prop :=
  ∃ f, sfp st = OpenStream f ∧ sfpos st = f_pos f ∧ 0 ≤ f_pos f.

(** The scratch file is ready for an append: the stream is open and, when
    no seek to the end of the file is to come first, the cursor is the
    real position. *)
Definition store_ready (st : ed_state) : Prop :=
  ∃ f, sfp st = OpenStream f ∧ 0 ≤ f_pos f
       ∧ (seek_write st = false → sfpos st = f_pos f).

(** [sfpos] at the call of [fwrite] in put_sbuf_line: the end of the file
    when the write is preceded by a seek, the cursor on entry otherwise. *)
Definition cursor_before_write (st : ed_state) : Z :=
  if seek_write st then
    match sfp st with
    | OpenStream f => Z.of_nat (length (f_data f))
    | _ => sfpos st
    end
  else sfpos st.

(** The write position of put_sbuf_line in the stream: the end of the file
    when a seek comes first, the position of the stream otherwise. *)
Definition write_pos (st : ed_state) (f : file) : Z :=
  if seek_write st then Z.of_nat (length (f_data f)) else f_pos f.

(** ** Sequences of calls *)

(** One insertion by a caller: the current address is moved to [after], a
    node holding the descriptor is allocated and add_line_node links it. *)
Record insertion := Insertion {
  ins_after : Z;
  ins_adr : Z;
  ins_llen : Z
}.

Definition insert_line (i : insertion) (st : ed_state) : option ed_state :=
  let lp := fresh ({[NULL]} ∪ dom (heap st)) in
  let h := <[lp := Line NULL NULL (ins_adr i) (ins_llen i)]> (heap st) in
  add_line_node lp (set_heap h (set_current_addr (ins_after i) st)).

Fixpoint insert_lines (l : list insertion) (st : ed_state) : option ed_state :=
  match l with
  | [] => Some st
  | i :: l' => st' ← insert_line i st; insert_lines l' st'
  end.

(** A sequence of get_addressed_line_node calls: for each call the node it
    returns and the cache it leaves, and the final state. *)
Fixpoint node_at_calls (ns : list Z) (st : ed_state) : option (list (ptr * (Z * ptr)) * ed_state) :=
  match ns with
  | [] => Some ([], st)
  | n :: ns' =>
      r ← get_addressed_line_node n st;
      rs ← node_at_calls ns' r.1;
      Some ((r.2, (ga_on r.1, ga_lp r.1)) :: rs.1, rs.2)
  end.

(** ** Example states *)

Definition text (s : string) : list ascii := list_ascii_of_string s.

(** The state after a successful init_buffers. *)
Definition fresh_state : ed_state :=
  State (OpenStream (File [] 0)) 0 false
        {[ buffer_head := Line buffer_head buffer_head 0 0 ]} 0 0
        buffer_head 0 "" true.

(** The state after an append of "abc" to [fresh_state] whose write stops
    after one byte. *)
Definition failed_write : ed_state :=
  State (OpenStream (File (text "a") 1)) (-1) false
        {[ buffer_head := Line buffer_head buffer_head 0 0 ]} 0 0
        buffer_head 0 "cannot write temp file" true.

(** The state after "hello" is appended to [fresh_state]: the line is the
    node 2. *)
Definition one_line : ed_state :=
  State (OpenStream (File (text "hello") 5)) 5 false
        (<[ 2%nat := Line buffer_head buffer_head 0 5 ]>
           {[ buffer_head := Line 2%nat 2%nat 0 0 ]}) 1 1
        buffer_head 0 "" true.

(** The state after "hello" and "world" are appended to [fresh_state]:
    the lines are the nodes 2 and 3. *)
Definition two_lines : ed_state :=
  State (OpenStream (File (text "helloworld") 10)) 10 false
        (<[ 3%nat := Line buffer_head 2%nat 5 5 ]>
           (<[ 2%nat := Line 3%nat buffer_head 0 5 ]>
              {[ buffer_head := Line 2%nat 3%nat 0 0 ]})) 2 2
        2%nat 1 "" true.

(** ** The rest of buf.c *)

(** quit: remove_lines scratch file and exit.  The result is the state the
    process leaves behind and its exit status; the result of [fclose] is
    not looked at. *)
Definition quit (n : Z) (st : ed_state) : option (ed_state * Z) :=
  match sfp st with
  | NoStream => Some (st, n)
  | OpenStream f => Some (set_sfn_linked false (set_sfp ClosedStream st), n)
  | ClosedStream => None
  end.

(** The statics of translit_text: the table [ctab] of 256 unsigned chars
    and the index [i] of the entry the last call changed. *)
Record translit_state := Translit {
  ctab : list ascii;
  tr_i : Z
}.

(** The conversion of an [int] to [unsigned char]. *)
Definition uchar (x : Z) : ascii := ascii_of_nat (Z.to_nat (x mod 256)).

(** [ctab[i] = x]; [None] when [i] is no index of the array. *)
Definition ctab_store (i : Z) (x : ascii) (tab : list ascii) : option (list ascii) :=
  if decide (0 ≤ i < 256) then Some (<[Z.to_nat i := x]> tab) else None.

(** The table after the loop [for (i = 0; i < 256; i++) ctab[i] = i;] of
    init_buffers, run on the zeroed static array. *)
Definition init_ctab : list ascii :=
  foldl (λ tab i, <[i := ascii_of_nat i]> tab) (replicate 256 zero) (seq 0 256).

Definition init_translit : translit_state := Translit init_ctab 0.

(** [for (us = s; len-- > 0; us++) *us = ctab[*us];] on a buffer holding
    [s]; [None] when the loop leaves the buffer. *)
Fixpoint translit_loop (tab : list ascii) (len : nat) (s : list ascii) : option (list ascii) :=
  match len with
  | O => Some s
  | S len' =>
      match s with
      | [] => None
      | c :: s' =>
          c' ← tab !! nat_of_ascii c;
          r ← translit_loop tab len' s';
          Some (c' :: r)
      end
  end.

(** translit_text: translate characters in a string.  The result is the
    content of the buffer after the call. *)
Definition translit_text (s : list ascii) (len : nat) (from to : Z) (ts : translit_state) : option (translit_state * list ascii) :=
  t1 ← ctab_store (tr_i ts) (uchar (tr_i ts)) (ctab ts);
  t2 ← ctab_store from (uchar to) t1;
  r ← translit_loop t2 len s;
  Some (Translit t2 from, r).

(** The table is the identity but for the entry [i]. *)
Definition ctab_ok (ts : translit_state) : Prop :=
  length (ctab ts) = 256%nat
  ∧ 0 ≤ tr_i ts < 256
  ∧ ∀ j : nat, (j < 256)%nat → Z.of_nat j ≠ tr_i ts →
               ctab ts !! j = Some (ascii_of_nat j).

(** The number of iterations of the loop that get_addressed_line_node
    runs, that is the number of links it follows from its starting node. *)
Definition node_at_hops (n : Z) (st : ed_state) : nat :=
  let on := ga_on st in
  if decide (n > on) then
    if decide (n <= Z.shiftr (on + addr_last st) 1) then Z.to_nat (n - on)
    else Z.to_nat (addr_last st - n)
  else
    if decide (n >= Z.shiftr on 1) then Z.to_nat (on - n)
    else Z.to_nat (n - 0).

(** ** Lines held by the scratch file *)

(** The node [p] describes the text [t] in the bytes [data]. *)
Definition line_stored (h : gmap nat line_t) (data : list ascii) (p : ptr) (t : list ascii) : Prop :=
  ∃ a, descriptor h p = Some (a, Z.of_nat (length t))
       ∧ 0 ≤ a
       ∧ a + Z.of_nat (length t) ≤ Z.of_nat (length data)
       ∧ take (length t) (drop (Z.to_nat a) data) = t.

(** The scratch file holds the texts [txts] of the lines [ls]: the cursor
    is the real position, the stream is at the end of the file unless a
    seek comes before the next write, and each node describes its text. *)
Definition lines_stored (st : ed_state) (ls : list ptr) (txts : list (list ascii)) : Prop :=
  ∃ f, sfp st = OpenStream f
       ∧ sfpos st = f_pos f
       ∧ 0 ≤ f_pos f
       ∧ (seek_write st = false → f_pos f = Z.of_nat (length (f_data f)))
       ∧ Forall2 (line_stored (heap st) (f_data f)) ls txts.

(** A text that put_sbuf_line takes as one line. *)
Definition valid_line (LINECHARS : Z) (t : list ascii) : Prop :=
  (newline ∉ t) ∧ Z.of_nat (length t) < LINECHARS.

(** Lines appended one after the other, each from a buffer of its own. *)
Fixpoint append_lines (LINECHARS : Z) (txts : list (list ascii)) (st : ed_state) : option ed_state :=
  match txts with
  | [] => Some st
  | t :: txts' =>
      r ← put_sbuf_line LINECHARS no_faults (t ++ [newline]) st;
      append_lines LINECHARS txts' r.1
  end.

(** A call of one of the two scratch-file routines, in an environment. *)
Inductive call :=
| Put (e : env) (cs : list ascii)
| Get (e : env) (lp : ptr).

Definition run_call (LINECHARS : Z) (c : call) (st : ed_state) : option ed_state :=
  match c with
  | Put e cs => fst <$> put_sbuf_line LINECHARS e cs st
  | Get e lp => fst <$> get_sbuf_line e lp st
  end.

Fixpoint run_calls (LINECHARS : Z) (cs : list call) (st : ed_state) : option ed_state :=
  match cs with
  | [] => Some st
  | c :: cs' => st' ← run_call LINECHARS c st; run_calls LINECHARS cs' st'
  end.

(** [two_lines] with a node 4 allocated for a third line and the current
    address moved to line 1. *)
Definition pending_node : ed_state :=
  set_current_addr 1
    (set_heap (<[ 4%nat := Line NULL NULL 10 3 ]> (heap two_lines)) two_lines).

(** [two_lines] after close_sbuf and open_sbuf: the nodes are there, the
    scratch file is new. *)
Definition reopened : ed_state :=
  State (OpenStream (File [] 0)) 0 false (heap two_lines) 2 2 2%nat 1 "" true.

(** [two_lines] after line 1 is read. *)
Definition read_one : ed_state :=
  State (OpenStream (File (text "helloworld") 5)) 5 true (heap two_lines)
        2 2 2%nat 1 "" true.

(** [failed_write] after "hello" is appended. *)
Definition lost_line : ed_state :=
  State (OpenStream (File (text "ahello") 6)) 4 false
        (<[ 2%nat := Line buffer_head buffer_head (-1) 5 ]>
           {[ buffer_head := Line 2%nat 2%nat 0 0 ]}) 1 1
        buffer_head 0 "cannot write temp file" true.

(** * Properties *)

(** ** Walks along a chain *)

Section Chains.

Variable next : ptr → option ptr.

Lemma hops_add (j k : nat) (p : ptr) :
  hops next (j + k) p = hops next j p ≫= hops next k.
Proof.
  revert p. induction j as [|j IH]; intros p; simpl; [done|].
  destruct (next p) as [p'|]; simpl; [apply IH|done].
Qed.

(** One hop from the node at index [i] of a chain ends on the node at
    index [i + 1]. *)
Lemma chain_next (a b : ptr) (ls : list ptr) (i : nat) (p q : ptr) :
  chain next a ls b →
  (a :: ls ++ [b]) !! i = Some p →
  (a :: ls ++ [b]) !! S i = Some q →
  next p = Some q.
Proof.
  revert a i. induction ls as [|x ls IH]; intros a i; simpl.
  - intros Hab Hp Hq. destruct i as [|[|i]]; simplify_eq/=; done.
  - intros [Hax Hch] Hp Hq. destruct i as [|i]; simplify_eq/=; [done|].
    by apply (IH x i).
Qed.

Lemma chain_hops (a b : ptr) (ls : list ptr) (j i : nat) (p q : ptr) :
  chain next a ls b →
  (a :: ls ++ [b]) !! i = Some p →
  (a :: ls ++ [b]) !! (i + j)%nat = Some q →
  hops next j p = Some q.
Proof.
  intros Hch. revert i p. induction j as [|j IH]; intros i p Hp Hq.
  - rewrite Nat.add_0_r in Hq. simpl. congruence.
  - assert (is_Some ((a :: ls ++ [b]) !! S i)) as [m Hm].
    { apply lookup_lt_is_Some. apply lookup_lt_Some in Hq. lia. }
    simpl. rewrite (chain_next a b ls i p m Hch Hp Hm). simpl.
    apply (IH (S i)); [done|]. by replace (S i + j)%nat with (i + S j)%nat by lia.
Qed.

(** A chain depends on the link of its nodes only. *)
Lemma chain_ext (next' : ptr → option ptr) (a b : ptr) (ls : list ptr) :
  (∀ p, p ∈ a :: ls → next' p = next p) →
  chain next a ls b → chain next' a ls b.
Proof.
  revert a. induction ls as [|x ls IH]; intros a Hext; simpl.
  - intros <-. apply Hext. set_solver.
  - intros [Hax Hch]. split.
    + rewrite Hext; [done|set_solver].
    + apply IH; [|done]. intros p Hp. apply Hext. set_solver.
Qed.

(** Linking [x] between [pred], the last node of [a :: l1], and its
    successor gives the chain with [x] inserted after [l1]. *)
Lemma chain_insert (next' : ptr → option ptr) (a b x pred succ : ptr) (l1 l2 : list ptr) :
  NoDup (a :: l1 ++ l2) →
  x ∉ a :: l1 ++ l2 →
  chain next a (l1 ++ l2) b →
  last (a :: l1) = Some pred →
  head (l2 ++ [b]) = Some succ →
  next' pred = Some x →
  next' x = Some succ →
  (∀ p, p ≠ pred → p ≠ x → next' p = next p) →
  chain next' a (l1 ++ x :: l2) b.
Proof.
  revert a. induction l1 as [|y l1 IH]; intros a Hnd Hx Hch Hpred Hsucc Hp Hxs Hoth.
  - simpl in *. simplify_eq. split; [done|].
    destruct l2 as [|z l2]; simpl in *; simplify_eq; [done|].
    destruct Hch as [_ Hch]. split; [done|].
    apply chain_ext; [|done]. intros p Hin. apply Hoth.
    + apply NoDup_cons in Hnd as [Hnd _]. set_solver.
    + set_solver.
  - simpl in Hch. destruct Hch as [Hay Hch].
    rewrite last_cons_cons in Hpred.
    apply NoDup_cons in Hnd as [Ha Hnd].
    assert (pred ∈ y :: l1) as Hin.
    { apply list_elem_of_lookup. apply last_Some in Hpred as [l' ->].
      exists (length l'). by rewrite lookup_app_r, Nat.sub_diag. }
    simpl. split.
    + rewrite Hoth; [done| |set_solver]. intros ->. set_solver.
    + apply IH; try done. set_solver.
Qed.

End Chains.

(** ** The counted loops *)

Lemma loop_up_hops (h : gmap nat line_t) (k : nat) (on : Z) (lp : ptr) :
  loop_up h k on lp = (λ p, (on + Z.of_nat k, p)) <$> hops (forw h) k lp.
Proof.
  revert on lp. induction k as [|k IH]; intros on lp; simpl.
  - do 2 f_equal. lia.
  - destruct (forw h lp) as [p|]; simpl; [|done].
    rewrite IH. destruct (hops (forw h) k p); simpl; [|done].
    do 2 f_equal. lia.
Qed.

Lemma loop_down_hops (h : gmap nat line_t) (k : nat) (on : Z) (lp : ptr) :
  loop_down h k on lp = (λ p, (on - Z.of_nat k, p)) <$> hops (back h) k lp.
Proof.
  revert on lp. induction k as [|k IH]; intros on lp; simpl.
  - do 2 f_equal. lia.
  - destruct (back h lp) as [p|]; simpl; [|done].
    rewrite IH. destruct (hops (back h) k p); simpl; [|done].
    do 2 f_equal. lia.
Qed.

(** ** Walks around the ring *)

(** The node at index [i] of the ring, counted forward from the sentinel,
    is at index [count + 1 - i] counted backward. *)
Lemma mirror_lookup (ls : list ptr) (i : nat) (p : ptr) :
  (buffer_head :: ls) !! i = Some p →
  (buffer_head :: reverse ls ++ [buffer_head]) !! (length ls + 1 - i)%nat = Some p.
Proof.
  intros Hp. destruct i as [|i]; simpl in Hp.
  - simplify_eq. rewrite Nat.sub_0_r, Nat.add_1_r. simpl.
    rewrite lookup_app_r by (rewrite length_reverse; lia).
    by rewrite length_reverse, Nat.sub_diag.
  - pose proof (lookup_lt_Some _ _ _ Hp) as Hlt.
    replace (length ls + 1 - S i)%nat with (S (length ls - S i)) by lia. simpl.
    rewrite lookup_app_l by (rewrite length_reverse; lia).
    rewrite reverse_lookup by lia. rewrite <- Hp. f_equal. lia.
Qed.

Lemma ring_forw_hops (h : gmap nat line_t) (ls : list ptr) (i j : nat) (p q : ptr) :
  ring h ls →
  (buffer_head :: ls) !! i = Some p →
  (buffer_head :: ls) !! (i + j)%nat = Some q →
  hops (forw h) j p = Some q.
Proof.
  intros (_ & Hf & _) Hp Hq.
  apply (chain_hops _ buffer_head buffer_head ls j i); [done| |].
  - change ((buffer_head :: ls) ++ [buffer_head]) with
      (buffer_head :: ls ++ [buffer_head]) in *.
    by apply (lookup_app_l_Some (buffer_head :: ls)).
  - by apply (lookup_app_l_Some (buffer_head :: ls)).
Qed.

Lemma ring_back_hops (h : gmap nat line_t) (ls : list ptr) (i j : nat) (p q : ptr) :
  ring h ls →
  (j ≤ i)%nat →
  (buffer_head :: ls) !! i = Some p →
  (buffer_head :: ls) !! (i - j)%nat = Some q →
  hops (back h) j p = Some q.
Proof.
  intros (_ & _ & Hb) Hji Hp Hq.
  pose proof (lookup_lt_Some _ _ _ Hp) as Hlt. simpl in Hlt.
  apply (chain_hops _ buffer_head buffer_head (reverse ls) j
           (length ls + 1 - i)); [done|by apply mirror_lookup|].
  replace (length ls + 1 - i + j)%nat with (length ls + 1 - (i - j))%nat by lia.
  by apply mirror_lookup.
Qed.

(** The forward successor of the node at index [i]; the sentinel follows
    the last line. *)
Lemma ring_forw_next (h : gmap nat line_t) (ls : list ptr) (i : nat) (p q : ptr) :
  ring h ls →
  (buffer_head :: ls) !! i = Some p →
  (buffer_head :: ls ++ [buffer_head]) !! S i = Some q →
  forw h p = Some q.
Proof.
  intros (_ & Hf & _) Hp Hq.
  apply (chain_next _ buffer_head buffer_head ls i); [done| |done].
  by apply (lookup_app_l_Some (buffer_head :: ls)).
Qed.

(** [buffer_head.q_back] is the last node of the ring. *)
Lemma ring_back_head (h : gmap nat line_t) (ls : list ptr) (q : ptr) :
  ring h ls →
  (buffer_head :: ls) !! length ls = Some q →
  back h buffer_head = Some q.
Proof.
  intros Hr Hq.
  apply (ring_back_hops h ls 0 0 buffer_head buffer_head) in Hr as Hr'; [|done..].
  destruct Hr as (_ & _ & Hb).
  apply (chain_next _ buffer_head buffer_head (reverse ls) 0); [done..|].
  apply mirror_lookup in Hq.
  by replace (length ls + 1 - length ls)%nat with 1%nat in Hq by lia.
Qed.

Lemma ring_lookup_inj (h : gmap nat line_t) (ls : list ptr) (i j : nat) (p : ptr) :
  ring h ls →
  (buffer_head :: ls) !! i = Some p →
  (buffer_head :: ls) !! j = Some p →
  i = j.
Proof. intros (Hnd & _) Hi Hj. by eapply NoDup_lookup. Qed.

(** Every node of the ring is allocated. *)
Lemma ring_allocated (h : gmap nat line_t) (ls : list ptr) (p : ptr) :
  ring h ls → p ∈ buffer_head :: ls → is_Some (h !! p).
Proof.
  intros Hr [i Hi]%list_elem_of_lookup.
  assert (is_Some ((buffer_head :: ls ++ [buffer_head]) !! S i)) as [q Hq].
  { apply lookup_lt_is_Some. apply lookup_lt_Some in Hi.
    simpl in *. rewrite length_app. simpl. lia. }
  pose proof (ring_forw_next h ls i p q Hr Hi Hq) as Hn.
  unfold forw in Hn. destruct (h !! p); [by eexists|done].
Qed.

(** The nodes reachable from the sentinel are the nodes of the ring. *)
Lemma ring_reachable (h : gmap nat line_t) (ls : list ptr) (p : ptr) :
  ring h ls → reachable h p ↔ p ∈ buffer_head :: ls.
Proof.
  intros Hr. split.
  - intros [k Hk]. revert p Hk. induction k as [|k IH]; intros p Hk.
    + simpl in Hk. simplify_eq. set_solver.
    + replace (S k) with (k + 1)%nat in Hk by lia. rewrite hops_add in Hk.
      destruct (hops (forw h) k buffer_head) as [m|] eqn:Hm; [|done].
      simpl in Hk. destruct (forw h m) as [m'|] eqn:Hm'; simplify_eq/=.
      specialize (IH m eq_refl). apply list_elem_of_lookup in IH as [i Hi].
      pose proof (lookup_lt_Some _ _ _ Hi) as Hlt. simpl in Hlt.
      destruct (decide (i = length ls)) as [->|Hne].
      * assert (forw h m = Some buffer_head) as Hhd.
        { apply (ring_forw_next h ls (length ls)); [done..|]. simpl.
          by rewrite lookup_app_r, Nat.sub_diag. }
        rewrite Hhd in Hm'. simplify_eq. set_solver.
      * assert (is_Some ((buffer_head :: ls) !! S i)) as [q Hq].
        { apply lookup_lt_is_Some. simpl. lia. }
        assert (forw h m = Some q) as Hhd.
        { apply (ring_forw_next h ls i); [done..|]. simpl in *.
          by apply lookup_app_l_Some. }
        rewrite Hhd in Hm'. simplify_eq.
        apply list_elem_of_lookup. by exists (S i).
  - intros [i Hi]%list_elem_of_lookup. exists i.
    by apply (ring_forw_hops h ls 0 i buffer_head p).
Qed.

(** ** get_addressed_line_node *)

Lemma shiftr_1_bounds (x : Z) : 2 * Z.shiftr x 1 ≤ x < 2 * Z.shiftr x 1 + 2.
Proof.
  rewrite Z.shiftr_div_pow2 by lia. change (2 ^ 1) with 2.
  pose proof (Z.div_mod x 2). pose proof (Z.mod_pos_bound x 2). lia.
Qed.

(** On a well-formed registry the call is defined for every argument: it
    ends on the node at the clamped ordinal and caches that pair. *)
Lemma node_at_clamped (st : ed_state) (ls : list ptr) (n : Z) :
  registry_ok st ls →
  ∃ p, get_addressed_line_node n st
         = Some (set_cache (clamp n (addr_last st)) p st, p)
       ∧ (buffer_head :: ls) !! Z.to_nat (clamp n (addr_last st)) = Some p.
Proof.
  intros (Hr & _ & Hlast & Hon & Hlp).
  assert (is_Some ((buffer_head :: ls) !! Z.to_nat (clamp n (addr_last st))))
    as [p Hp].
  { apply lookup_lt_is_Some. simpl. unfold clamp. lia. }
  assert (is_Some ((buffer_head :: ls) !! length ls)) as [tl Htl].
  { apply lookup_lt_is_Some. simpl. lia. }
  exists p. split; [|done].
  pose proof (shiftr_1_bounds (ga_on st + addr_last st)) as Hs1.
  pose proof (shiftr_1_bounds (ga_on st)) as Hs2.
  unfold get_addressed_line_node. unfold clamp in *.
  destruct (decide (n > ga_on st)) as [Hgt|Hle].
  - destruct (decide (n <= Z.shiftr (ga_on st + addr_last st) 1)) as [Hnear|Hfar].
    + rewrite loop_up_hops.
      rewrite (ring_forw_hops (heap st) ls (Z.to_nat (ga_on st))
                 (Z.to_nat (n - ga_on st)) (ga_lp st) p); [| done..|].
      * simpl. do 3 f_equal. lia.
      * rewrite <- Hp. f_equal. lia.
    + rewrite (ring_back_head (heap st) ls tl Hr Htl). simpl.
      rewrite loop_down_hops.
      rewrite (ring_back_hops (heap st) ls (length ls)
                 (Z.to_nat (addr_last st - n)) tl p); [|done|lia|done|].
      * simpl. do 3 f_equal. lia.
      * rewrite <- Hp. f_equal. lia.
  - destruct (decide (n >= Z.shiftr (ga_on st) 1)) as [Hnear|Hfar].
    + rewrite loop_down_hops.
      rewrite (ring_back_hops (heap st) ls (Z.to_nat (ga_on st))
                 (Z.to_nat (ga_on st - n)) (ga_lp st) p); [|done|lia|done|].
      * simpl. do 3 f_equal. lia.
      * rewrite <- Hp. f_equal. lia.
    + rewrite loop_up_hops.
      rewrite (ring_forw_hops (heap st) ls 0 (Z.to_nat (n - 0))
                 buffer_head p); [|done..|].
      * simpl. do 3 f_equal. lia.
      * rewrite <- Hp. f_equal. lia.
Qed.

Lemma clamp_in_range (n last : Z) : 0 ≤ n ≤ last → clamp n last = n.
Proof. unfold clamp. lia. Qed.

(** The cache-free resolver on a well-formed registry. *)
Lemma linear_node_at_lookup (st : ed_state) (ls : list ptr) (n : Z) (p : ptr) :
  registry_ok st ls →
  (buffer_head :: ls) !! Z.to_nat n = Some p →
  linear_node_at (heap st) n = Some p.
Proof.
  intros (Hr & _) Hp. unfold linear_node_at.
  by apply (ring_forw_hops (heap st) ls 0 (Z.to_nat n) buffer_head p).
Qed.

(** A call changes the cache only, and keeps the registry well formed. *)
Lemma node_at_registry_ok (st st' : ed_state) (ls : list ptr) (n : Z) (p : ptr) :
  registry_ok st ls →
  get_addressed_line_node n st = Some (st', p) →
  registry_ok st' ls ∧ heap st' = heap st ∧ addr_last st' = addr_last st.
Proof.
  intros Hok Hcall.
  destruct (node_at_clamped st ls n Hok) as (q & Heq & Hq).
  rewrite Heq in Hcall. simplify_eq.
  destruct Hok as (Hr & Hnull & Hlast & Hon & Hlp).
  split; [|done]. unfold registry_ok, clamp in *. simpl. intuition lia.
Qed.

(** ** Stores into a node and the queue macros *)

Lemma store_forw_Some (p x : ptr) (h : gmap nat line_t) :
  p ∈ dom h →
  ∃ h', store_forw p x h = Some h'
        ∧ (∀ q, forw h' q = if decide (q = p) then Some x else forw h q)
        ∧ (∀ q, back h' q = back h q)
        ∧ (∀ q, descriptor h' q = descriptor h q)
        ∧ dom h' = dom h.
Proof.
  intros [nd Hnd]%elem_of_dom. unfold store_forw. rewrite Hnd. simpl.
  eexists. split; [done|]. unfold forw, back, descriptor.
  repeat split; try intros q.
  - rewrite lookup_insert. destruct (decide (p = q)), (decide (q = p)); simplify_eq; done.
  - rewrite lookup_insert. destruct (decide (p = q)); simplify_eq; [by rewrite Hnd|done].
  - rewrite lookup_insert. destruct (decide (p = q)); simplify_eq; [by rewrite Hnd|done].
  - apply dom_insert_lookup_L. by eexists.
Qed.

Lemma store_back_Some (p x : ptr) (h : gmap nat line_t) :
  p ∈ dom h →
  ∃ h', store_back p x h = Some h'
        ∧ (∀ q, forw h' q = forw h q)
        ∧ (∀ q, back h' q = if decide (q = p) then Some x else back h q)
        ∧ (∀ q, descriptor h' q = descriptor h q)
        ∧ dom h' = dom h.
Proof.
  intros [nd Hnd]%elem_of_dom. unfold store_back. rewrite Hnd. simpl.
  eexists. split; [done|]. unfold forw, back, descriptor.
  repeat split; try intros q.
  - rewrite lookup_insert. destruct (decide (p = q)); simplify_eq; [by rewrite Hnd|done].
  - rewrite lookup_insert. destruct (decide (p = q)), (decide (q = p)); simplify_eq; done.
  - rewrite lookup_insert. destruct (decide (p = q)); simplify_eq; [by rewrite Hnd|done].
  - apply dom_insert_lookup_L. by eexists.
Qed.

Lemma forw_Some_dom (h : gmap nat line_t) (p q : ptr) :
  forw h p = Some q → p ∈ dom h.
Proof.
  unfold forw. intros Hq. apply elem_of_dom. destruct (h !! p); [by eexists|done].
Qed.

(** INSQUE on allocated nodes: the new links, in both directions. *)
Lemma INSQUE_links (elem pred succ : ptr) (h : gmap nat line_t) :
  forw h pred = Some succ →
  elem ∈ dom h → succ ∈ dom h →
  ∃ h', INSQUE elem pred h = Some h'
        ∧ (∀ q, forw h' q = if decide (q = pred) then Some elem
                            else if decide (q = elem) then Some succ
                            else forw h q)
        ∧ (∀ q, back h' q = if decide (q = elem) then Some pred
                            else if decide (q = succ) then Some elem
                            else back h q)
        ∧ (∀ q, descriptor h' q = descriptor h q)
        ∧ dom h' = dom h.
Proof.
  intros Hsucc Helem Hs. pose proof (forw_Some_dom _ _ _ Hsucc) as Hpred.
  unfold INSQUE, REQUE. rewrite Hsucc. simpl.
  destruct (store_forw_Some elem succ h Helem) as (h1 & -> & Hf1 & Hb1 & Hd1 & Hdom1).
  simpl. rewrite <- Hdom1 in Hs, Hpred, Helem.
  destruct (store_back_Some succ elem h1 Hs) as (h2 & -> & Hf2 & Hb2 & Hd2 & Hdom2).
  simpl. rewrite <- Hdom2 in Hpred, Helem.
  destruct (store_forw_Some pred elem h2 Hpred) as (h3 & -> & Hf3 & Hb3 & Hd3 & Hdom3).
  simpl. rewrite <- Hdom3 in Helem.
  destruct (store_back_Some elem pred h3 Helem) as (h4 & -> & Hf4 & Hb4 & Hd4 & Hdom4).
  exists h4. split; [done|]. repeat split; try intros q.
  - rewrite Hf4, Hf3, Hf2, Hf1. done.
  - rewrite Hb4, Hb3, Hb2, Hb1. done.
  - rewrite Hd4, Hd3, Hd2, Hd1. done.
  - congruence.
Qed.

(** Whenever INSQUE is defined it keeps every descriptor and allocates
    nothing. *)
Lemma INSQUE_descriptor (elem pred : ptr) (h h' : gmap nat line_t) :
  INSQUE elem pred h = Some h' →
  (∀ q, descriptor h' q = descriptor h q) ∧ dom h' = dom h.
Proof.
  intros Hins.
  destruct (forw h pred) as [succ|] eqn:Hsucc;
    [|by unfold INSQUE in Hins; rewrite Hsucc in Hins].
  assert (elem ∈ dom h ∧ succ ∈ dom h) as [Helem Hs].
  { unfold INSQUE, REQUE, store_forw, store_back in Hins. rewrite Hsucc in Hins.
    simpl in Hins. destruct (h !! elem) as [ne|] eqn:He; [|done]. simpl in Hins.
    split; [apply elem_of_dom; by eexists|].
    destruct (decide (succ = elem)) as [->|Hne]; [apply elem_of_dom; by eexists|].
    rewrite lookup_insert_ne in Hins by done.
    destruct (h !! succ) eqn:Hsu; [apply elem_of_dom; by eexists|done]. }
  destruct (INSQUE_links elem pred succ h Hsucc Helem Hs) as (h2 & Heq & _ & _ & Hd & Hdom).
  rewrite Heq in Hins. by simplify_eq.
Qed.

(** ** add_line_node *)

Lemma last_take_lookup (a p : ptr) (ls : list ptr) (c : nat) :
  (a :: ls) !! c = Some p → last (a :: take c ls) = Some p.
Proof.
  intros Hp. pose proof (lookup_lt_Some _ _ _ Hp) as Hlt. simpl in Hlt.
  rewrite last_lookup. simpl. rewrite length_take_le by lia.
  change (a :: take c ls) with (take (S c) (a :: ls)).
  by rewrite lookup_take_lt by lia.
Qed.

Lemma head_drop_lookup (b q : ptr) (ls : list ptr) (c : nat) :
  (c ≤ length ls)%nat →
  (ls ++ [b]) !! c = Some q → head (drop c ls ++ [b]) = Some q.
Proof.
  intros Hc Hq. rewrite head_lookup.
  rewrite <- (drop_app_le ls [b] c) by done.
  by rewrite lookup_drop, Nat.add_0_r.
Qed.

Lemma last_cons_reverse (a : ptr) (l : list ptr) :
  last (a :: reverse l) = head (l ++ [a]).
Proof.
  rewrite last_cons, last_reverse. by destruct l.
Qed.

Lemma head_reverse_snoc (a : ptr) (l : list ptr) :
  head (reverse l ++ [a]) = last (a :: l).
Proof.
  rewrite head_app, head_reverse, last_cons. by destruct (last l).
Qed.

(** Inserting an allocated node that is not in the ring: the node is linked
    after the node at the clamped current address, the counters move by
    one, and everything else is as it was. *)
Lemma add_line_node_registry_ok (st : ed_state) (ls : list ptr) (lp : ptr) :
  registry_ok st ls →
  lp ∈ dom (heap st) →
  lp ∉ buffer_head :: ls →
  let c := clamp (current_addr st) (addr_last st) in
  ∃ h' p,
    add_line_node lp st
      = Some (set_current_addr (current_addr st + 1)
                (set_addr_last (addr_last st + 1)
                   (set_heap h' (set_cache c p st))))
    ∧ registry_ok (set_current_addr (current_addr st + 1)
                     (set_addr_last (addr_last st + 1)
                        (set_heap h' (set_cache c p st))))
                  (take (Z.to_nat c) ls ++ lp :: drop (Z.to_nat c) ls)
    ∧ (∀ q, descriptor h' q = descriptor (heap st) q)
    ∧ dom h' = dom (heap st).
Proof.
  intros Hok Hdom Hnin c.
  destruct (node_at_clamped st ls (current_addr st) Hok) as (p & Hcall & Hp).
  fold c in Hcall, Hp.
  destruct Hok as (Hr & Hnull & Hlast & Hon & Hlp).
  pose proof (lookup_lt_Some _ _ _ Hp) as Hc. simpl in Hc.
  assert (is_Some ((ls ++ [buffer_head]) !! Z.to_nat c)) as [succ Hsucc].
  { apply lookup_lt_is_Some. rewrite length_app. simpl. lia. }
  assert (forw (heap st) p = Some succ) as Hfw.
  { by apply (ring_forw_next (heap st) ls (Z.to_nat c)). }
  assert (succ ∈ buffer_head :: ls) as Hsin.
  { apply lookup_app_Some in Hsucc as [Hs|[_ Hs]].
    - apply list_elem_of_lookup_2 in Hs. set_solver.
    - apply list_elem_of_lookup_2 in Hs. set_solver. }
  assert (p ∈ buffer_head :: ls) as Hpin by by eapply list_elem_of_lookup_2.
  assert (succ ∈ dom (heap st)) as Hsdom.
  { apply elem_of_dom. by apply (ring_allocated _ ls). }
  destruct (INSQUE_links lp p succ (heap st) Hfw Hdom Hsdom)
    as (h' & Hins & Hf & Hb & Hd & Hdom').
  exists h', p. unfold add_line_node. rewrite Hcall. simpl. rewrite Hins. simpl.
  split; [done|]. split; [|done].
  set (l1 := take (Z.to_nat c) ls). set (l2 := drop (Z.to_nat c) ls).
  assert (ls = l1 ++ l2) as Hsplit by (symmetry; apply take_drop).
  assert (last (buffer_head :: l1) = Some p) as Hlast1
    by by apply last_take_lookup.
  assert (head (l2 ++ [buffer_head]) = Some succ) as Hhead2
    by (apply head_drop_lookup; [lia|done]).
  destruct Hr as (Hnd & Hfc & Hbc).
  assert (lp ≠ p) as Hne1 by (intros ->; done).
  assert (lp ≠ succ) as Hne2 by (intros ->; done).
  unfold registry_ok. simpl. repeat split.
  - apply NoDup_cons in Hnd as [Hh Hnd]. rewrite Hsplit in Hh, Hnd, Hnin.
    apply NoDup_cons. split.
    + set_solver.
    + apply NoDup_app in Hnd as (Hn1 & Hdis & Hn2).
      apply NoDup_app. repeat split; [done| |].
      * intros x Hx1 [->|Hx2]%elem_of_cons; [set_solver|by eapply Hdis].
      * apply NoDup_cons. split; [set_solver|done].
  - rewrite Hsplit in Hnd, Hnin, Hfc.
    apply (chain_insert (forw (heap st)) (forw h') _ _ _ p succ); try done.
    + rewrite Hf. by rewrite decide_True.
    + rewrite Hf. by rewrite decide_False, decide_True.
    + intros q Hq1 Hq2. rewrite Hf. by rewrite !decide_False.
  - rewrite Hsplit, reverse_app in Hbc.
    rewrite reverse_app, reverse_cons, <- app_assoc. simpl.
    apply (chain_insert (back (heap st)) (back h') _ _ _ succ p); try done.
    + rewrite Hsplit in Hnd. apply NoDup_cons in Hnd as [Hh Hnd].
      apply NoDup_cons. split.
      * rewrite <- reverse_app. rewrite elem_of_reverse. done.
      * rewrite <- reverse_app. by rewrite reverse_Permutation.
    + rewrite Hsplit in Hnin. rewrite <- reverse_app.
      intros [->|Hx]%elem_of_cons; [set_solver|].
      apply elem_of_reverse in Hx. set_solver.
    + by rewrite last_cons_reverse.
    + by rewrite head_reverse_snoc.
    + rewrite Hb. by rewrite decide_False, decide_True by done.
    + rewrite Hb. by rewrite decide_True.
    + intros q Hq1 Hq2. rewrite Hb. by rewrite !decide_False.
  - apply not_elem_of_dom. rewrite Hdom'. by apply not_elem_of_dom.
  - rewrite length_app. simpl. unfold l1, l2.
    rewrite length_take_le, length_drop by lia. lia.
  - unfold c, clamp. lia.
  - unfold c, clamp. lia.
  - change (buffer_head :: l1 ++ lp :: l2) with ((buffer_head :: l1) ++ lp :: l2).
    rewrite lookup_app_l by (simpl; unfold l1; rewrite length_take_le; lia).
    change (buffer_head :: l1) with (take (S (Z.to_nat c)) (buffer_head :: ls)).
    by rewrite lookup_take_lt by lia.
Qed.

(** ** get_line_node_addr *)

(** From the node at index [i] the loop finds a node [j] places further on
    after [j] hops, given fuel for them. *)
Lemma addr_loop_found (h : gmap nat line_t) (ls : list ptr) (lp : ptr) (j : nat) :
  ring h ls →
  ∀ (i : nat) (cp : ptr) (n : Z) (fuel : nat),
    (buffer_head :: ls) !! i = Some cp →
    (buffer_head :: ls) !! (i + j)%nat = Some lp →
    (j < fuel)%nat →
    addr_loop fuel h lp cp n = Some (lp, n + Z.of_nat j).
Proof.
  intros Hr. induction j as [|j IH]; intros i cp n fuel Hcp Hlp Hfuel.
  - rewrite Nat.add_0_r in Hlp. simplify_eq.
    destruct fuel as [|fuel]; [lia|]. simpl. rewrite decide_True by done.
    do 2 f_equal. lia.
  - destruct fuel as [|fuel]; [lia|]. simpl.
    rewrite decide_False.
    2:{ intros ->. pose proof (ring_lookup_inj _ _ _ _ _ Hr Hcp Hlp). lia. }
    assert (is_Some ((buffer_head :: ls) !! S i)) as [q Hq].
    { apply lookup_lt_is_Some. apply lookup_lt_Some in Hlp. lia. }
    rewrite (ring_forw_next h ls i cp q Hr Hcp); simpl.
    2:{ by apply lookup_app_l_Some. }
    rewrite decide_False.
    2:{ intros ->.
        assert ((buffer_head :: ls) !! 0%nat = Some buffer_head) as H0 by done.
        pose proof (ring_lookup_inj _ _ _ _ _ Hr Hq H0). lia. }
    rewrite (IH (S i) q (n + 1) fuel); [|done| |lia].
    + do 2 f_equal. lia.
    + by replace (S i + j)%nat with (i + S j)%nat by lia.
Qed.

(** For a node that is not in the ring the loop comes back to the
    sentinel, having counted the hops to the last line. *)
Lemma addr_loop_missing (h : gmap nat line_t) (ls : list ptr) (lp : ptr) (j : nat) :
  ring h ls →
  lp ∉ buffer_head :: ls →
  ∀ (i : nat) (cp : ptr) (n : Z) (fuel : nat),
    (buffer_head :: ls) !! i = Some cp →
    (i + j)%nat = length ls →
    (j < fuel)%nat →
    addr_loop fuel h lp cp n = Some (buffer_head, n + Z.of_nat j).
Proof.
  intros Hr Hnin. induction j as [|j IH]; intros i cp n fuel Hcp Hlen Hfuel.
  - destruct fuel as [|fuel]; [lia|]. simpl.
    rewrite decide_False.
    2:{ intros ->. apply Hnin. by eapply list_elem_of_lookup_2. }
    rewrite (ring_forw_next h ls i cp buffer_head Hr Hcp); cbn [mbind option_bind].
    2:{ simpl. rewrite lookup_app_r by lia.
        by replace (i - length ls)%nat with 0%nat by lia. }
    rewrite decide_True by done. do 2 f_equal. lia.
  - destruct fuel as [|fuel]; [lia|]. simpl.
    rewrite decide_False.
    2:{ intros ->. apply Hnin. by eapply list_elem_of_lookup_2. }
    assert (is_Some ((buffer_head :: ls) !! S i)) as [q Hq].
    { apply lookup_lt_is_Some. simpl. lia. }
    rewrite (ring_forw_next h ls i cp q Hr Hcp); simpl.
    2:{ by apply lookup_app_l_Some. }
    rewrite decide_False.
    2:{ intros ->.
        assert ((buffer_head :: ls) !! 0%nat = Some buffer_head) as H0 by done.
        pose proof (ring_lookup_inj _ _ _ _ _ Hr Hq H0). lia. }
    rewrite (IH (S i) q (n + 1) fuel); [|done|lia|lia].
    do 2 f_equal. lia.
Qed.

(** The line number of the node at index [k] is [k]; no error is set. *)
Lemma get_line_node_addr_index (ERR : Z) (st : ed_state) (ls : list ptr)
    (fuel k : nat) (lp : ptr) :
  registry_ok st ls →
  (length ls < fuel)%nat →
  (buffer_head :: ls) !! k = Some lp →
  get_line_node_addr ERR fuel lp st = Some (st, Z.of_nat k).
Proof.
  intros (Hr & _) Hfuel Hk. unfold get_line_node_addr.
  pose proof (lookup_lt_Some _ _ _ Hk) as Hlt. simpl in Hlt.
  rewrite (addr_loop_found (heap st) ls lp k Hr 0 buffer_head 0 fuel);
    [|done|done|lia].
  cbn [mbind option_bind fst snd]. rewrite decide_False; [done|].
  intros [Hnz ->].
  assert ((buffer_head :: ls) !! 0%nat = Some buffer_head) as H0 by done.
  pose proof (ring_lookup_inj _ _ _ _ _ Hr Hk H0). lia.
Qed.

(** ** Initialisation and insertions *)

Lemma fresh_state_registry_ok : registry_ok fresh_state [].
Proof.
  unfold registry_ok, ring, fresh_state. simpl. repeat split; try done.
  apply NoDup_singleton.
Qed.

Lemma REQUE_boot :
  REQUE buffer_head buffer_head {[ buffer_head := Line NULL NULL 0 0 ]}
  = Some {[ buffer_head := Line buffer_head buffer_head 0 0 ]}.
Proof. by vm_compute. Qed.

Lemma init_buffers_no_faults (ERR : Z) :
  init_buffers ERR no_faults boot_state = Some fresh_state.
Proof.
  unfold init_buffers, open_sbuf. simpl. by rewrite REQUE_boot.
Qed.

Lemma init_buffers_registry_ok (ERR : Z) (e : env) (st : ed_state) :
  init_buffers ERR e boot_state = Some st → registry_ok st [].
Proof.
  unfold init_buffers, open_sbuf. intros Hinit.
  destruct (malloc_fails e); [done|].
  destruct (mkstemp_fails e), (fdopen_fails e); simpl in Hinit;
    try (destruct (decide (ERR < 0)); [done|]);
    rewrite REQUE_boot in Hinit; simplify_eq/=;
    unfold registry_ok, ring; simpl; repeat split; try done;
    apply NoDup_singleton.
Qed.

Lemma fresh_ptr_spec (h : gmap nat line_t) :
  fresh ({[NULL]} ∪ dom h) ≠ NULL ∧ h !! fresh ({[NULL]} ∪ dom h) = None.
Proof.
  pose proof (is_fresh ({[NULL]} ∪ dom h)) as Hfr.
  split; [set_solver|]. apply not_elem_of_dom. set_solver.
Qed.

(** The invariant of the registry reads the heap through the links of the
    nodes of the ring only. *)
Lemma registry_ok_ext (st st' : ed_state) (ls : list ptr) :
  registry_ok st ls →
  (∀ q, q ∈ buffer_head :: ls → forw (heap st') q = forw (heap st) q) →
  (∀ q, q ∈ buffer_head :: ls → back (heap st') q = back (heap st) q) →
  heap st' !! NULL = None →
  addr_last st' = addr_last st → ga_on st' = ga_on st → ga_lp st' = ga_lp st →
  registry_ok st' ls.
Proof.
  intros ((Hnd & Hf & Hb) & Hnull & Hrest) Hfw Hbw Hnull' Hl Ho Hp.
  unfold registry_ok, ring. rewrite Hl, Ho, Hp. repeat split; try tauto.
  - eapply chain_ext; [|exact Hf]. intros p Hin. by apply Hfw.
  - eapply chain_ext; [|exact Hb]. intros p Hin. apply Hbw.
    apply elem_of_cons in Hin as [->|Hin]; [set_solver|].
    apply elem_of_reverse in Hin. set_solver.
Qed.

Lemma insert_line_registry_ok (i : insertion) (st : ed_state) (ls : list ptr) :
  registry_ok st ls →
  ∃ st' ls', insert_line i st = Some st' ∧ registry_ok st' ls'.
Proof.
  intros Hok. unfold insert_line.
  destruct (fresh_ptr_spec (heap st)) as [Hnn Hfr].
  set (lp := fresh ({[NULL]} ∪ dom (heap st))) in *.
  set (nd := Line NULL NULL (ins_adr i) (ins_llen i)).
  set (st1 := set_heap (<[lp:=nd]> (heap st)) (set_current_addr (ins_after i) st)).
  assert (lp ∉ buffer_head :: ls) as Hnin.
  { intros Hin. destruct Hok as (Hr & _).
    destruct (ring_allocated _ _ _ Hr Hin) as [x Hx]. congruence. }
  assert (registry_ok st1 ls) as Hok1.
  { apply (registry_ok_ext st); try done.
    - intros q Hq. unfold forw. simpl. rewrite lookup_insert_ne; [done|].
      by intros <-.
    - intros q Hq. unfold back. simpl. rewrite lookup_insert_ne; [done|].
      by intros <-.
    - simpl. rewrite lookup_insert_ne by done. by destruct Hok as (_ & ? & _). }
  assert (lp ∈ dom (heap st1)) as Hdom.
  { unfold st1. simpl. apply elem_of_dom. rewrite lookup_insert_eq. by eexists. }
  destruct (add_line_node_registry_ok st1 ls lp Hok1 Hdom Hnin)
    as (h' & p & Hadd & Hok' & _).
  eauto.
Qed.

Lemma insert_lines_registry_ok (l : list insertion) (st : ed_state) (ls : list ptr) :
  registry_ok st ls →
  ∃ st' ls', insert_lines l st = Some st' ∧ registry_ok st' ls'.
Proof.
  revert st ls. induction l as [|i l IH]; intros st ls Hok; simpl.
  - eauto.
  - destruct (insert_line_registry_ok i st ls Hok) as (st1 & ls1 & -> & Hok1).
    simpl. by eapply IH.
Qed.

Lemma node_at_calls_linear (h : gmap nat line_t) (ns : list Z) :
  ∀ (st : ed_state) (ls : list ptr),
    registry_ok st ls →
    heap st = h →
    Forall (λ n, 0 ≤ n ≤ addr_last st) ns →
    ∃ rs st',
      node_at_calls ns st = Some (rs, st')
      ∧ Forall2 (λ n r, linear_node_at h n = Some r.1 ∧ r.2 = (n, r.1)) ns rs.
Proof.
  induction ns as [|n ns IH]; intros st ls Hok Hh Hrange; simpl.
  - exists [], st. split; [done|constructor].
  - apply Forall_cons in Hrange as [Hn Hrange].
    destruct (node_at_clamped st ls n Hok) as (p & Hcall & Hp).
    rewrite (clamp_in_range n (addr_last st) Hn) in Hcall, Hp.
    destruct (node_at_registry_ok st _ ls n p Hok Hcall) as (Hok1 & Hheap1 & Hlast1).
    rewrite Hcall. simpl.
    destruct (IH (set_cache n p st) ls Hok1) as (rs & st' & Hcalls & Hall);
      [done|done|].
    rewrite Hcalls. simpl. eexists _, _. split; [done|].
    constructor; [|done]. simpl. split; [|done].
    rewrite <- Hh. by apply (linear_node_at_lookup st ls).
Qed.

(** ** The claims on the registry *)

(** C2 (cache equivalence).  After init_buffers and any sequence of
    insertions through add_line_node, whatever the current address of each,
    any sequence of get_addressed_line_node calls with ordinals in
    [0, addr_last] is defined; each call returns the node that the
    cache-free resolver [linear_node_at] finds by walking forward from the
    sentinel, and leaves the cache equal to (ordinal, that node).  The
    cache of each call is the one its predecessor left, so all four walks
    are covered. *)
Theorem cache_equivalence (ERR : Z) (e : env) (st0 : ed_state)
    (l : list insertion) (ns : list Z) :
  init_buffers ERR e boot_state = Some st0 →
  ∃ st,
    insert_lines l st0 = Some st
    ∧ (Forall (λ n, 0 ≤ n ≤ addr_last st) ns →
       ∃ rs st',
         node_at_calls ns st = Some (rs, st')
         ∧ Forall2 (λ n r, linear_node_at (heap st) n = Some r.1
                           ∧ r.2 = (n, r.1)) ns rs).
Proof.
  intros Hinit. apply init_buffers_registry_ok in Hinit.
  destruct (insert_lines_registry_ok l st0 [] Hinit) as (st & ls & Hins & Hok).
  exists st. split; [done|]. intros Hrange.
  by apply (node_at_calls_linear (heap st) ns st ls).
Qed.

(** C3 (ordinal bijection).  On a well-formed registry, with fuel for one
    turn of the ring: every node reachable from the sentinel has a line
    number, found without error, and get_addressed_line_node of that number
    is the node; and for every ordinal in [1, addr_last], the line number
    of the node get_addressed_line_node returns is the ordinal. *)
Theorem ordinal_bijection (ERR : Z) (st : ed_state) (ls : list ptr) (fuel : nat) :
  registry_ok st ls →
  (length ls < fuel)%nat →
  (∀ lp, reachable (heap st) lp →
     ∃ n st',
       get_line_node_addr ERR fuel lp st = Some (st, n)
       ∧ get_addressed_line_node n st = Some (st', lp))
  ∧ (∀ n, 1 ≤ n ≤ addr_last st →
       ∃ lp st',
         get_addressed_line_node n st = Some (st', lp)
         ∧ get_line_node_addr ERR fuel lp st' = Some (st', n)).
Proof.
  intros Hok Hfuel. split.
  - intros lp Hreach.
    apply (ring_reachable _ ls) in Hreach; [|by destruct Hok].
    apply list_elem_of_lookup in Hreach as [k Hk].
    pose proof (lookup_lt_Some _ _ _ Hk) as Hlt. simpl in Hlt.
    destruct (node_at_clamped st ls (Z.of_nat k) Hok) as (p & Hcall & Hp).
    assert (addr_last st = Z.of_nat (length ls)) as Hlast by by destruct Hok as (_&_&?&_).
    rewrite clamp_in_range in Hcall, Hp by lia.
    rewrite Nat2Z.id in Hp. simplify_eq.
    exists (Z.of_nat k). eexists. split; [|done].
    by apply (get_line_node_addr_index ERR st ls).
  - intros n Hn.
    destruct (node_at_clamped st ls n Hok) as (p & Hcall & Hp).
    rewrite clamp_in_range in Hcall, Hp by lia.
    destruct (node_at_registry_ok st _ ls n p Hok Hcall) as (Hok1 & _).
    exists p. eexists. split; [done|].
    rewrite (get_line_node_addr_index ERR _ ls fuel (Z.to_nat n) p Hok1 Hfuel Hp).
    do 2 f_equal. lia.
Qed.

(** C4, as the code has it.  get_addressed_line_node has no range check
    and reports no error: on a well-formed registry it is defined for
    every argument, changes nothing but its cache, and returns a node of
    the ring, never NULL.  An ordinal of 0 or less resolves to the sentinel
    [buffer_head]; an ordinal of [addr_last] or more resolves to the last
    node of the ring. *)
Theorem node_at_no_range_check (st : ed_state) (ls : list ptr) (n : Z) :
  registry_ok st ls →
  ∃ p c,
    get_addressed_line_node n st = Some (set_cache c p st, p)
    ∧ p ≠ NULL
    ∧ (buffer_head :: ls) !! Z.to_nat c = Some p
    ∧ (0 ≤ n ≤ addr_last st → c = n)
    ∧ (n ≤ 0 → c = 0 ∧ p = buffer_head)
    ∧ (addr_last st ≤ n → c = addr_last st ∧ last (buffer_head :: ls) = Some p).
Proof.
  intros Hok.
  destruct (node_at_clamped st ls n Hok) as (p & Hcall & Hp).
  destruct Hok as (Hr & Hnull & Hlast & Hon & Hlp).
  exists p, (clamp n (addr_last st)). split; [done|]. split; [|split; [done|]].
  - intros ->. apply list_elem_of_lookup_2 in Hp.
    destruct (ring_allocated _ _ _ Hr Hp) as [x Hx]. congruence.
  - unfold clamp in *. split; [lia|]. split.
    + intros Hn. split; [lia|].
      replace (Z.to_nat (0 `max` (n `min` addr_last st))) with 0%nat in Hp by lia.
      by simplify_eq/=.
    + intros Hn. split; [lia|]. rewrite last_lookup. simpl. rewrite <- Hp.
      f_equal. lia.
Qed.

(** C9, as the code has it.  On a well-formed registry, with fuel for one
    turn of the ring, get_line_node_addr returns the position of every
    node of the ring, 0 for the sentinel and the 1-based position for a
    line, without error.  For a node that is not reachable from the
    sentinel it sets "invalid address" and returns ERR when the registry
    holds a line; when the registry is empty it returns 0 without error. *)
Theorem line_node_addr_positions (ERR : Z) (st : ed_state) (ls : list ptr) (fuel : nat) :
  registry_ok st ls →
  (length ls < fuel)%nat →
  (∀ k lp, (buffer_head :: ls) !! k = Some lp →
     get_line_node_addr ERR fuel lp st = Some (st, Z.of_nat k))
  ∧ (∀ lp, ¬ reachable (heap st) lp → ls ≠ [] →
       get_line_node_addr ERR fuel lp st
       = Some (seterrmsg "invalid address" st, ERR))
  ∧ (∀ lp, ¬ reachable (heap st) lp → ls = [] →
       get_line_node_addr ERR fuel lp st = Some (st, 0)).
Proof.
  intros Hok Hfuel. split; [|split].
  - intros k lp Hk. by apply (get_line_node_addr_index ERR st ls).
  - intros lp Hnr Hne. destruct Hok as (Hr & _).
    rewrite (ring_reachable _ ls lp Hr) in Hnr.
    unfold get_line_node_addr.
    rewrite (addr_loop_missing (heap st) ls lp (length ls) Hr Hnr 0 buffer_head 0 fuel);
      [|done|done|lia].
    cbn [mbind option_bind fst snd]. rewrite decide_True; [done|].
    split; [|done]. destruct ls; [done|]. simpl. lia.
  - intros lp Hnr ->. destruct Hok as (Hr & _).
    rewrite (ring_reachable _ [] lp Hr) in Hnr.
    unfold get_line_node_addr.
    rewrite (addr_loop_missing (heap st) [] lp 0 Hr Hnr 0 buffer_head 0 fuel);
      [|done|done|simpl in *; lia].
    cbn [mbind option_bind fst snd]. rewrite decide_False; [done|].
    intros [Hnz _]. simpl in Hnz. lia.
Qed.

(** ** The scratch file *)

Lemma scan_line_app (t rest : list ascii) :
  newline ∉ t → scan_line (t ++ newline :: rest) = Some (t, rest).
Proof.
  induction t as [|c t IH]; intros Hnl; simpl.
  - done.
  - rewrite decide_False by set_solver. rewrite IH by set_solver. done.
Qed.

Lemma scan_line_Some (cs t rest : list ascii) :
  scan_line cs = Some (t, rest) → cs = t ++ newline :: rest ∧ newline ∉ t.
Proof.
  revert t. induction cs as [|c cs IH]; intros t; simpl; [done|].
  destruct (decide (c = newline)) as [->|Hne].
  - intros. simplify_eq. split; [done|set_solver].
  - destruct (scan_line cs) as [[t' r']|]; simpl; [|done].
    intros. simplify_eq. destruct (IH t' eq_refl) as [-> Hnl].
    split; [done|set_solver].
Qed.


Lemma transfer_no_faults (want : nat) : transfer no_faults want = want.
Proof. done. Qed.

(** add_line_node leaves the scratch file, the cursor, the flag, the error
    message and every descriptor as they were. *)
Lemma add_line_node_frame (lp : ptr) (st st' : ed_state) :
  add_line_node lp st = Some st' →
  sfp st' = sfp st ∧ sfpos st' = sfpos st ∧ seek_write st' = seek_write st
  ∧ errmsg st' = errmsg st
  ∧ (∀ q, descriptor (heap st') q = descriptor (heap st) q)
  ∧ dom (heap st') = dom (heap st).
Proof.
  unfold add_line_node, get_addressed_line_node. intros Hadd.
  match type of Hadd with
  | (?x ≫= _) ≫= _ = _ => destruct x as [[on p]|]; [|done]
  end.
  simpl in Hadd.
  destruct (INSQUE lp p (heap st)) as [h'|] eqn:Hins; [|done].
  simpl in Hadd. simplify_eq. simpl.
  apply INSQUE_descriptor in Hins as [Hd Hdom]. done.
Qed.

Lemma descriptor_stored (lp : ptr) (a n : Z) (h h1 h2 : gmap nat line_t) :
  store_llen lp n h = Some h1 →
  store_adr lp a h1 = Some h2 →
  descriptor h2 lp = Some (a, n) ∧ dom h2 = dom h
  ∧ (∀ q, forw h2 q = forw h q) ∧ (∀ q, back h2 q = back h q)
  ∧ (∀ q, q ≠ lp → descriptor h2 q = descriptor h q).
Proof.
  unfold store_llen, store_adr, descriptor, forw, back.
  destruct (h !! lp) as [nd|] eqn:Hnd; [|done]. simpl. intros ?. simplify_eq.
  rewrite lookup_insert_eq. simpl. intros ?. simplify_eq.
  rewrite lookup_insert_eq. simpl. split; [done|]. split.
  - rewrite !dom_insert_L. apply elem_of_dom_2 in Hnd. set_solver.
  - repeat split; intros q.
    + rewrite !lookup_insert. destruct (decide (lp = q)); simplify_eq; by rewrite ?Hnd.
    + rewrite !lookup_insert. destruct (decide (lp = q)); simplify_eq; by rewrite ?Hnd.
    + intros Hne. by rewrite !lookup_insert_ne.
Qed.

(** A successful write: the bytes go to the stream at its position, the
    node gets the cursor as offset and the length of the text, and the
    cursor advances by that length. *)
Lemma put_sbuf_write_Some (e : env) (lp : ptr) (t rest : list ascii)
    (st st' : ed_state) (r : list ascii) :
  put_sbuf_write e lp t rest st = Some (st', Some r) →
  r = rest
  ∧ descriptor (heap st') lp = Some (sfpos st, Z.of_nat (length t))
  ∧ (∀ q, q ≠ lp → descriptor (heap st') q = descriptor (heap st) q)
  ∧ sfpos st' = sfpos st + Z.of_nat (length t)
  ∧ seek_write st' = seek_write st
  ∧ dom (heap st') = dom (heap st)
  ∧ ∃ f, sfp st = OpenStream f
         ∧ sfp st' = OpenStream
             (File (write_at (Z.to_nat (f_pos f)) t (f_data f))
                   (f_pos f + Z.of_nat (length t))).
Proof.
  unfold put_sbuf_write. intros Hput.
  destruct (sfp st) as [|f|] eqn:Hsfp; simpl in Hput; try done.
  destruct (decide (length (take (transfer e (length t)) t) ≠ length t))
    as [Hshort|Hfull]; [done|].
  apply dec_stable in Hfull.
  assert (take (transfer e (length t)) t = t) as Htake.
  { apply take_ge. rewrite length_take in Hfull. lia. }
  rewrite Htake in Hput.
  destruct (store_llen lp _ (heap st)) as [h1|] eqn:H1; [|done]. simpl in Hput.
  destruct (store_adr lp _ h1) as [h2|] eqn:H2; [|done]. simpl in Hput.
  match type of Hput with
  | add_line_node _ ?s ≫= _ = _ =>
      destruct (add_line_node lp s) as [st2|] eqn:Hadd; [|done]
  end.
  simpl in Hput. simplify_eq.
  apply add_line_node_frame in Hadd as (Hf & Hpos & Hsw & _ & Hd & Hdom).
  simpl in *.
  destruct (descriptor_stored _ _ _ _ _ _ H1 H2) as (Hd2 & Hdom2 & _ & _ & Hfr).
  split; [done|]. rewrite Hd, Hpos, Hsw, Hdom, Hf.
  repeat split; try done; [|eauto].
  intros q Hq. rewrite Hd. by apply Hfr.
Qed.

(** A failed write: the cursor is marked unknown. *)
Lemma put_sbuf_write_None (e : env) (lp : ptr) (t rest : list ascii)
    (st st' : ed_state) :
  put_sbuf_write e lp t rest st = Some (st', None) →
  sfpos st' = -1 ∧ errmsg st' = "cannot write temp file"%string.
Proof.
  unfold put_sbuf_write. intros Hput.
  destruct (sfp st) as [|f|] eqn:Hsfp; simpl in Hput; try done.
  destruct (decide (length (take (transfer e (length t)) t) ≠ length t))
    as [Hshort|Hfull].
  - unfold put_sbuf_fail in Hput. by simplify_eq.
  - destruct (store_llen lp _ _) as [h1|]; [|done]. simpl in Hput.
    destruct (store_adr lp _ h1) as [h2|]; [|done]. simpl in Hput.
    match type of Hput with
    | add_line_node _ ?s ≫= _ = _ =>
        destruct (add_line_node lp s) as [st2|]; [|done]
    end.
    done.
Qed.

Lemma store_llen_adr_defined (lp : ptr) (a n : Z) (h : gmap nat line_t) :
  lp ∈ dom h →
  ∃ h1 h2, store_llen lp n h = Some h1 ∧ store_adr lp a h1 = Some h2.
Proof.
  intros [nd Hnd]%elem_of_dom. unfold store_llen, store_adr.
  rewrite Hnd. simpl. eexists _, _. split; [done|].
  by rewrite lookup_insert_eq.
Qed.

(** With the stream open and no short write, the write part of
    put_sbuf_line succeeds on a well-formed registry and links the node
    after the current line. *)
Lemma put_sbuf_write_defined (e : env) (lp : ptr) (t rest : list ascii)
    (st : ed_state) (ls : list ptr) (f : file) :
  registry_ok st ls →
  lp ∈ dom (heap st) →
  lp ∉ buffer_head :: ls →
  sfp st = OpenStream f →
  transfer e (length t) = length t →
  let c := Z.to_nat (clamp (current_addr st) (addr_last st)) in
  ∃ st',
    put_sbuf_write e lp t rest st = Some (st', Some rest)
    ∧ registry_ok st' (take c ls ++ lp :: drop c ls)
    ∧ current_addr st' = current_addr st + 1.
Proof.
  intros Hok Hdom Hnin Hsfp Htr c. unfold put_sbuf_write.
  rewrite Hsfp. simpl. rewrite Htr, firstn_all.
  rewrite decide_False by (intros Hne; by apply Hne).
  destruct (store_llen_adr_defined lp (sfpos st) (Z.of_nat (length t)) (heap st) Hdom)
    as (h1 & h2 & H1 & H2).
  rewrite H1. simpl. rewrite H2. simpl.
  destruct (descriptor_stored _ _ _ _ _ _ H1 H2) as (_ & Hdom2 & Hf2 & Hb2 & _).
  match goal with
  | |- context [add_line_node lp ?s] => set (st1 := s)
  end.
  assert (registry_ok st1 ls) as Hok1.
  { apply (registry_ok_ext st); try done.
    apply not_elem_of_dom. simpl. rewrite Hdom2. apply not_elem_of_dom.
    by destruct Hok as (_ & ? & _). }
  assert (lp ∈ dom (heap st1)) as Hdom1 by (simpl; by rewrite Hdom2).
  destruct (add_line_node_registry_ok st1 ls lp Hok1 Hdom1 Hnin)
    as (h' & p & Hadd & Hok' & _).
  rewrite Hadd. simpl. eexists. split; [done|]. split; [|done].
  pose proof Hok' as (_ & Hnull' & _).
  eapply registry_ok_ext; [exact Hok'|done..].
Qed.

Lemma do_fseek_end (e : env) (f f' : file) :
  do_fseek e f 0 SEEK_END = Some f' →
  f' = File (f_data f) (Z.of_nat (length (f_data f))).
Proof.
  unfold do_fseek. destruct (seek_fails e); [done|].
  case_decide; [done|]. intros. simplify_eq. f_equal. lia.
Qed.

Lemma malloc_Some (e : env) (h : gmap nat line_t) (lp : ptr) :
  malloc e h = Some lp → lp ≠ NULL ∧ h !! lp = None.
Proof.
  unfold malloc. destruct (malloc_fails e); [done|]. intros. simplify_eq.
  apply fresh_ptr_spec.
Qed.

(** What a successful put_sbuf_line has done. *)
Lemma put_sbuf_line_Some (LINECHARS : Z) (e : env) (cs : list ascii)
    (st st' : ed_state) (rest : list ascii) :
  put_sbuf_line LINECHARS e cs st = Some (st', Some rest) →
  ∃ lp t f,
    malloc e (heap st) = Some lp
    ∧ scan_line cs = Some (t, rest)
    ∧ Z.of_nat (length t) < LINECHARS
    ∧ descriptor (heap st') lp
      = Some (cursor_before_write st, Z.of_nat (length t))
    ∧ (∀ q, q ≠ lp → descriptor (heap st') q = descriptor (heap st) q)
    ∧ sfpos st' = cursor_before_write st + Z.of_nat (length t)
    ∧ seek_write st' = false
    ∧ dom (heap st') = {[lp]} ∪ dom (heap st)
    ∧ sfp st = OpenStream f
    ∧ sfp st' = OpenStream
        (File (write_at (Z.to_nat (write_pos st f)) t (f_data f))
              (write_pos st f + Z.of_nat (length t))).
Proof.
  unfold put_sbuf_line, cursor_before_write, write_pos. intros Hput.
  destruct (malloc e (heap st)) as [lp|] eqn:Hm; [|done].
  destruct (scan_line cs) as [[t r]|] eqn:Hscan; [|done]. simpl in Hput.
  case_decide as Hlen; [done|].
  assert (∀ h : gmap nat line_t, (∀ q, q ≠ lp →
            descriptor h q = descriptor (<[lp:=Line NULL NULL 0 0]> (heap st)) q) →
          ∀ q, q ≠ lp → descriptor h q = descriptor (heap st) q) as Hframe.
  { intros h Hh q Hq. rewrite Hh by done. unfold descriptor.
    by rewrite lookup_insert_ne. }
  destruct (seek_write st) eqn:Hsw.
  - destruct (sfp st) as [|f|] eqn:Hsfp; simpl in Hput; try done.
    destruct (do_fseek e f 0 SEEK_END) as [f'|] eqn:Hseek; [|done].
    apply do_fseek_end in Hseek as ->.
    apply put_sbuf_write_Some in Hput
      as (-> & Hd & Hfr & Hpos & Hsw' & Hdom & g & Hg & Hsfp').
    simpl in *. simplify_eq. exists lp, t, f.
    rewrite Hdom, dom_insert_L. repeat split; try done; [lia|by apply Hframe].
  - apply put_sbuf_write_Some in Hput
      as (-> & Hd & Hfr & Hpos & Hsw' & Hdom & g & Hg & Hsfp').
    simpl in *. exists lp, t, g.
    rewrite Hdom, dom_insert_L.
    repeat split; try done; [lia|by apply Hframe|congruence].
Qed.

(** put_sbuf_line succeeds on a well-formed registry with the stream open,
    for a line shorter than LINECHARS, when the environment lets the
    allocation, the seek and the write through. *)
Lemma put_sbuf_line_defined (LINECHARS : Z) (e : env) (t rest : list ascii)
    (st : ed_state) (ls : list ptr) (f : file) :
  registry_ok st ls →
  sfp st = OpenStream f →
  newline ∉ t →
  Z.of_nat (length t) < LINECHARS →
  malloc_fails e = false →
  seek_fails e = false →
  transfer e (length t) = length t →
  let lp := fresh ({[NULL]} ∪ dom (heap st)) in
  let c := Z.to_nat (clamp (current_addr st) (addr_last st)) in
  ∃ st',
    put_sbuf_line LINECHARS e (t ++ newline :: rest) st = Some (st', Some rest)
    ∧ registry_ok st' (take c ls ++ lp :: drop c ls)
    ∧ current_addr st' = current_addr st + 1.
Proof.
  intros Hok Hsfp Hnl Hlen Hmal Hseek Htr lp c.
  unfold put_sbuf_line, malloc. rewrite Hmal. fold lp.
  rewrite scan_line_app by done. simpl. rewrite decide_False by lia.
  destruct (fresh_ptr_spec (heap st)) as [Hnn Hfr]. fold lp in Hnn, Hfr.
  set (st1 := set_heap (<[lp:=Line NULL NULL 0 0]> (heap st)) st).
  assert (lp ∉ buffer_head :: ls) as Hnin.
  { intros Hin. destruct Hok as (Hr & _).
    destruct (ring_allocated _ _ _ Hr Hin) as [x Hx]. congruence. }
  assert (registry_ok st1 ls) as Hok1.
  { apply (registry_ok_ext st); try done.
    - intros q Hq. unfold forw. simpl. rewrite lookup_insert_ne; [done|].
      by intros <-.
    - intros q Hq. unfold back. simpl. rewrite lookup_insert_ne; [done|].
      by intros <-.
    - simpl. rewrite lookup_insert_ne by done. by destruct Hok as (_ & ? & _). }
  assert (lp ∈ dom (heap st1)) as Hdom.
  { simpl. apply elem_of_dom. rewrite lookup_insert_eq. by eexists. }
  destruct (seek_write st) eqn:Hsw.
  - rewrite Hsfp. simpl. unfold do_fseek. rewrite Hseek.
    rewrite decide_False by lia.
    match goal with
    | |- context [put_sbuf_write e lp t rest ?s] => set (st2 := s)
    end.
    pose proof Hok1 as (_ & Hnull1 & _).
    assert (registry_ok st2 ls) as Hok2 by (by apply (registry_ok_ext st1)).
    by eapply (put_sbuf_write_defined e lp t rest st2 ls).
  - by eapply (put_sbuf_write_defined e lp t rest st1 ls).
Qed.

(** What a successful get_sbuf_line has done. *)
Lemma get_sbuf_read_Some (e : env) (len : Z) (st st' : ed_state) (bs : list ascii) :
  get_sbuf_read e len st = Some (st', Some bs) →
  ∃ f, sfp st = OpenStream f
       ∧ bs = take (Z.to_nat len) (drop (Z.to_nat (f_pos f)) (f_data f))
       ∧ Z.of_nat (length bs) = len
       ∧ st' = set_sfpos (sfpos st + len)
                 (set_sfp (OpenStream (File (f_data f) (f_pos f + len))) st).
Proof.
  unfold get_sbuf_read, fread. intros Hget.
  destruct (realloc_fails e); [done|].
  destruct (sfp st) as [|f|] eqn:Hsfp; simpl in Hget; try done.
  case_decide as Hlen; [done|].
  simplify_eq. exists f. split; [done|].
  set (k := transfer e (Z.to_nat len)) in *.
  assert (k = Z.to_nat len) as Hk.
  { assert (k ≤ Z.to_nat len)%nat.
    { unfold k, transfer. destruct (io_fault e); lia. }
    rewrite length_take in Hlen. lia. }
  rewrite Hk in *. rewrite Hlen. done.
Qed.

Lemma get_sbuf_line_Some (e : env) (lp : ptr) (st st' : ed_state) (bs : list ascii) :
  get_sbuf_line e lp st = Some (st', Some bs) →
  ∃ nd f pos,
    lp ≠ buffer_head
    ∧ heap st !! lp = Some nd
    ∧ sfp st = OpenStream f
    ∧ (pos = adr nd ∧ 0 ≤ pos ∨ pos = f_pos f ∧ sfpos st = adr nd)
    ∧ bs = take (Z.to_nat (llen nd)) (drop (Z.to_nat pos) (f_data f))
    ∧ Z.of_nat (length bs) = llen nd
    ∧ sfp st' = OpenStream (File (f_data f) (pos + llen nd))
    ∧ sfpos st' = adr nd + llen nd
    ∧ seek_write st' = true
    ∧ heap st' = heap st.
Proof.
  unfold get_sbuf_line. intros Hget.
  case_decide as Hhd; [done|]. simpl in Hget.
  destruct (heap st !! lp) as [nd|] eqn:Hnd; [|done]. simpl in Hget.
  case_decide as Hpos.
  - destruct (sfp st) as [|f|] eqn:Hsfp; simpl in Hget; try done.
    destruct (do_fseek e f (adr nd) SEEK_SET) as [f'|] eqn:Hseek; [|done].
    unfold do_fseek in Hseek. destruct (seek_fails e); [done|].
    case_decide as Hneg; [done|]. simplify_eq.
    apply get_sbuf_read_Some in Hget as (g & Hg & -> & Hlen & ->).
    simpl in *. simplify_eq. exists nd, f, (adr nd). simpl.
    repeat split; try done. left. split; [done|lia].
  - apply get_sbuf_read_Some in Hget as (g & Hg & -> & Hlen & ->).
    simpl in *. exists nd, g, (f_pos g). repeat split; try done; [by right|lia].
Qed.

(** Without faults get_sbuf_line returns the bytes its node describes. *)
Lemma get_sbuf_line_reads (lp : ptr) (st : ed_state) (f : file) (a n : Z)
    (bs : list ascii) :
  lp ≠ buffer_head →
  descriptor (heap st) lp = Some (a, n) →
  sfp st = OpenStream f →
  (sfpos st = a → f_pos f = a) →
  0 ≤ a →
  take (Z.to_nat n) (drop (Z.to_nat a) (f_data f)) = bs →
  Z.of_nat (length bs) = n →
  ∃ st', get_sbuf_line no_faults lp st = Some (st', Some bs).
Proof.
  intros Hhd Hd Hsfp Hcur Ha Hbs Hlen. unfold get_sbuf_line.
  rewrite decide_False by done. simpl.
  unfold descriptor in Hd. destruct (heap st !! lp) as [nd|]; [|done].
  simpl in Hd. injection Hd as Ha' Hn'. subst a n. simpl.
  case_decide as Hpos.
  - rewrite Hsfp. simpl. unfold do_fseek. simpl.
    rewrite decide_False by lia.
    unfold get_sbuf_read, fread. simpl. rewrite transfer_no_faults, Hbs.
    rewrite decide_False by (intros Hne; by apply Hne). eauto.
  - unfold get_sbuf_read, fread. simpl.
    rewrite Hsfp. simpl. rewrite (Hcur Hpos), transfer_no_faults, Hbs.
    rewrite decide_False by (intros Hne; by apply Hne). eauto.
Qed.

(** ** The claims on the scratch file *)





Lemma cursor_ok_nonneg (st : ed_state) : cursor_ok st → 0 ≤ sfpos st.
Proof. intros (f & _ & -> & ?). done. Qed.


(** C6, as the code has it.  close_sbuf resets the cursor to 0 and clears
    the seek-before-write flag whenever it returns 0, that is when no
    stream is open or fclose succeeds.  When fclose fails it returns ERR
    at once with "cannot close temp file", and the cursor and the flag are
    as they were. *)
Theorem close_sbuf_resets (ERR : Z) (e : env) (st st' : ed_state) (r : Z) :
  close_sbuf ERR e st = Some (st', r) →
  (sfp st = NoStream ∨ fclose_fails e = false →
     r = 0 ∧ sfpos st' = 0 ∧ seek_write st' = false ∧ sfp st' = NoStream)
  ∧ (sfp st ≠ NoStream → fclose_fails e = true →
       r = ERR ∧ errmsg st' = "cannot close temp file"%string
       ∧ sfpos st' = sfpos st ∧ seek_write st' = seek_write st).
Proof.
  unfold close_sbuf. intros Hclose.
  destruct (sfp st) as [|f|] eqn:Hsfp; [| |done].
  - simplify_eq. split; [done|]. by intros Hne.
  - destruct (fclose_fails e); simplify_eq; simpl.
    + split; [|done]. by intros [?|?].
    + split; [done|]. by intros _ ?.
Qed.

(** C7 (boundary).  On a well-formed registry with the stream open, a
    line of exactly LINECHARS - 1 bytes is accepted: without faults
    put_sbuf_line succeeds and returns the text after the newline; a node
    that was not allocated before is linked after the current line, so the
    registry has one line more and the new line is the current one; the
    node holds as offset the cursor at the write and as length
    LINECHARS - 1; the other nodes keep their descriptors; the bytes are in
    the file at that position, and the cursor and the stream end behind
    them.  A line of exactly LINECHARS bytes is rejected in every
    environment: NULL is returned and the state is the one on entry but
    for the error message, which is "line too long" (or "out of memory"
    when the allocation before the check fails); the stream, the cursor,
    the flag and the nodes are unchanged. *)
Theorem line_length_boundary (LINECHARS : Z) (st : ed_state) (ls : list ptr)
    (f : file) (t rest : list ascii) :
  registry_ok st ls →
  sfp st = OpenStream f →
  newline ∉ t →
  (Z.of_nat (length t) = LINECHARS - 1 →
     let lp := fresh ({[NULL]} ∪ dom (heap st)) in
     let c := Z.to_nat (clamp (current_addr st) (addr_last st)) in
     ∃ st', put_sbuf_line LINECHARS no_faults (t ++ newline :: rest) st
            = Some (st', Some rest)
            ∧ heap st !! lp = None
            ∧ registry_ok st' (take c ls ++ lp :: drop c ls)
            ∧ addr_last st' = addr_last st + 1
            ∧ current_addr st' = current_addr st + 1
            ∧ descriptor (heap st') lp
              = Some (cursor_before_write st, LINECHARS - 1)
            ∧ (∀ q, q ≠ lp → descriptor (heap st') q = descriptor (heap st) q)
            ∧ sfpos st' = cursor_before_write st + (LINECHARS - 1)
            ∧ seek_write st' = false
            ∧ sfp st' = OpenStream
                (File (write_at (Z.to_nat (write_pos st f)) t (f_data f))
                      (write_pos st f + (LINECHARS - 1))))
  ∧ (Z.of_nat (length t) = LINECHARS →
       ∀ e, put_sbuf_line LINECHARS e (t ++ newline :: rest) st
            = Some (seterrmsg (if malloc_fails e then "out of memory"
                               else "line too long") st, None)).
Proof.
  intros Hok Hsfp Hnl. split.
  - intros Hlen lp c.
    destruct (put_sbuf_line_defined LINECHARS no_faults t rest st ls f)
      as (st' & Hput & Hok' & Hcur); try done; [lia|].
    fold lp c in Hok'. exists st'. split; [done|].
    pose proof Hput as Hsome.
    apply put_sbuf_line_Some in Hsome
      as (lp' & t' & g & Hm & Hscan & _ & Hd & Hfr & Hpos & Hsw & _ & Hg & Hsfp').
    rewrite scan_line_app in Hscan by done. injection Hscan as <-.
    unfold malloc in Hm. simpl in Hm. injection Hm as <-. fold lp in Hd, Hfr.
    rewrite Hsfp in Hg. injection Hg as <-.
    rewrite Hlen in Hd, Hpos, Hsfp'.
    split; [apply fresh_ptr_spec|]. split; [done|]. split; [|done].
    destruct Hok as (_ & _ & -> & _). destruct Hok' as (_ & _ & -> & _).
    rewrite length_app. simpl. rewrite length_take, length_drop. lia.
  - intros Hlen e. unfold put_sbuf_line, malloc.
    destruct (malloc_fails e); [done|].
    rewrite scan_line_app by done. simpl. rewrite decide_True by lia.
    unfold put_sbuf_fail, free. simpl.
    rewrite delete_insert_id by apply fresh_ptr_spec.
    by destruct st.
Qed.

(** C8 (append postcondition).  Whenever put_sbuf_line succeeds, the node
    it allocated holds as offset the cursor at the call of fwrite and as
    length the number of bytes before the newline, the other nodes keep
    their descriptors, and the cursor ends at offset plus length.  So two
    successive appends of lines of 5 bytes to the store of a fresh state
    succeed and give, in this order, the descriptors (0, 5) and (5, 5). *)
Theorem append_postcondition (LINECHARS : Z) :
  (∀ e cs st st' rest,
     put_sbuf_line LINECHARS e cs st = Some (st', Some rest) →
     ∃ lp t,
       malloc e (heap st) = Some lp
       ∧ heap st !! lp = None
       ∧ scan_line cs = Some (t, rest)
       ∧ descriptor (heap st') lp
         = Some (cursor_before_write st, Z.of_nat (length t))
       ∧ (∀ q, q ≠ lp → descriptor (heap st') q = descriptor (heap st) q)
       ∧ sfpos st' = cursor_before_write st + Z.of_nat (length t))
  ∧ (∀ t1 t2 r1 r2,
       5 < LINECHARS →
       length t1 = 5%nat → length t2 = 5%nat →
       newline ∉ t1 → newline ∉ t2 →
       ∃ s1 s2 lp1 lp2,
         put_sbuf_line LINECHARS no_faults (t1 ++ newline :: r1) fresh_state
         = Some (s1, Some r1)
         ∧ put_sbuf_line LINECHARS no_faults (t2 ++ newline :: r2) s1
           = Some (s2, Some r2)
         ∧ registry_ok s2 [lp1; lp2]
         ∧ descriptor (heap s2) lp1 = Some (0, 5)
         ∧ descriptor (heap s2) lp2 = Some (5, 5)).
Proof.
  split.
  - intros e cs st st' rest Hput.
    apply put_sbuf_line_Some in Hput
      as (lp & t & g & Hm & Hscan & _ & Hd & Hfr & Hpos & _).
    exists lp, t. pose proof (malloc_Some _ _ _ Hm) as [_ Hnone]. done.
  - intros t1 t2 r1 r2 Hmax Hl1 Hl2 Hn1 Hn2.
    destruct (put_sbuf_line_defined LINECHARS no_faults t1 r1 fresh_state []
                (File [] 0)) as (s1 & Hput1 & Hok1 & Hcur1);
      try done; [apply fresh_state_registry_ok|lia|].
    simpl in Hok1, Hcur1.
    destruct (put_sbuf_line_Some _ _ _ _ _ _ Hput1)
      as (lp1 & t1' & g1 & Hm1 & Hscan1 & _ & Hd1 & _ & Hpos1 & Hsw1 & Hdom1
          & _ & Hsfp1).
    rewrite scan_line_app in Hscan1 by done. injection Hscan1 as <-.
    unfold malloc in Hm1. simpl in Hm1. injection Hm1 as Hlp1.
    rewrite Hlp1 in Hok1.
    assert (addr_last s1 = 1) as Hlast1 by by destruct Hok1 as (_ & _ & ? & _).
    destruct (put_sbuf_line_defined LINECHARS no_faults t2 r2 s1 [lp1] _
                Hok1 Hsfp1) as (s2 & Hput2 & Hok2 & _); try done; [lia|].
    rewrite Hcur1, Hlast1 in Hok2. simpl in Hok2.
    destruct (put_sbuf_line_Some _ _ _ _ _ _ Hput2)
      as (lp2 & t2' & g2 & Hm2 & Hscan2 & _ & Hd2 & Hfr2 & _).
    rewrite scan_line_app in Hscan2 by done. injection Hscan2 as <-.
    pose proof (malloc_Some _ _ _ Hm2) as [_ Hnone2].
    unfold malloc in Hm2. simpl in Hm2. injection Hm2 as Hlp2.
    rewrite Hlp2 in Hok2.
    exists s1, s2, lp1, lp2. split; [done|]. split; [done|]. split; [done|].
    split.
    + rewrite Hfr2.
      * rewrite Hd1, Hl1. done.
      * intros ->. apply not_elem_of_dom in Hnone2. rewrite Hdom1 in Hnone2.
        set_solver.
    + rewrite Hd2, Hl2. unfold cursor_before_write. rewrite Hsw1, Hpos1, Hl1.
      done.
Qed.

(** C10.  get_sbuf_line on the sentinel [buffer_head] returns NULL and
    changes nothing: no error message, no move of the cursor, no change of
    the seek-before-write flag.  On any other node, whenever the call
    returns, the flag is set. *)
Theorem get_sbuf_line_sentinel (e : env) (st : ed_state) :
  get_sbuf_line e buffer_head st = Some (st, None)
  ∧ (∀ lp st' r, lp ≠ buffer_head →
       get_sbuf_line e lp st = Some (st', r) → seek_write st' = true).
Proof.
  split; [done|]. intros lp st' r Hhd Hget. unfold get_sbuf_line in Hget.
  rewrite decide_False in Hget by done. simpl in Hget.
  destruct (heap st !! lp) as [nd|]; [|done]. simpl in Hget.
  assert (∀ s, seek_write s = true →
            get_sbuf_read e (llen nd) s = Some (st', r) → seek_write st' = true)
    as Hread.
  { clear Hget. intros s Hs. unfold get_sbuf_read.
    destruct (realloc_fails e); [intros Heq; by simplify_eq/=|].
    destruct (sfp s); simpl; try done.
    case_decide; intros Heq; by simplify_eq/=. }
  case_decide.
  - destruct (sfp st) as [|f|]; simpl in Hget; try done.
    destruct (do_fseek e f (adr nd) SEEK_SET);
      [|by simplify_eq/=].
    eapply Hread; [|exact Hget]. done.
  - eapply Hread; [|exact Hget]. done.
Qed.

(** ** The example states are states of the program *)

Lemma one_line_reached (LINECHARS : Z) :
  5 < LINECHARS →
  put_sbuf_line LINECHARS no_faults (text "hello" ++ [newline]) fresh_state
  = Some (one_line, Some []).
Proof.
  intros Hmax. unfold put_sbuf_line.
  change (malloc no_faults (heap fresh_state)) with (Some 2%nat).
  change (scan_line (text "hello" ++ [newline])) with (Some (text "hello", @nil ascii)).
  simpl. rewrite decide_False by lia. by vm_compute.
Qed.

Lemma two_lines_reached (LINECHARS : Z) :
  5 < LINECHARS →
  put_sbuf_line LINECHARS no_faults (text "world" ++ [newline]) one_line
  = Some (two_lines, Some []).
Proof.
  intros Hmax. unfold put_sbuf_line.
  change (malloc no_faults (heap one_line)) with (Some 3%nat).
  change (scan_line (text "world" ++ [newline])) with (Some (text "world", @nil ascii)).
  simpl. rewrite decide_False by lia. by vm_compute.
Qed.

Lemma two_lines_registry_ok : registry_ok two_lines [2%nat; 3%nat].
Proof.
  unfold registry_ok, ring. repeat split; try by vm_compute.
  apply (bool_decide_unpack _). by vm_compute.
Qed.




Lemma text_no_newline_hello : newline ∉ text "hello".
Proof. apply (bool_decide_unpack _). by vm_compute. Qed.

(** The round trip needs a store that is ready.  After a write that
    failed the cursor is -1 and the flag is clear: the next append, which
    succeeds, records the offset -1, and the read of that line fails. *)
Lemma append_after_failed_write :
  put_sbuf_line 100 write_fault (text "abc" ++ [newline]) fresh_state
  = Some (failed_write, None)
  ∧ ¬ store_ready failed_write
  ∧ ∃ st1 st2,
      put_sbuf_line 100 no_faults (text "hello" ++ [newline]) failed_write
      = Some (st1, Some [])
      ∧ descriptor (heap st1) 2%nat = Some (-1, 5)
      ∧ get_sbuf_line no_faults 2%nat st1 = Some (st2, None)
      ∧ errmsg st2 = "cannot seek temp file"%string.
Proof.
  split; [by vm_compute|]. split.
  - intros (f & Hf & Hpos & Hcur). simpl in *. simplify_eq.
    specialize (Hcur eq_refl). simpl in Hcur. lia.
  - destruct (put_sbuf_line 100 no_faults (text "hello" ++ [newline]) failed_write)
      as [[st1 r]|] eqn:Hput; [|by vm_compute in Hput].
    assert (r = Some [] ∧ descriptor (heap st1) 2%nat = Some (-1, 5)) as [-> Hd].
    { vm_compute in Hput. injection Hput as <- <-. by vm_compute. }
    destruct (get_sbuf_line no_faults 2%nat st1) as [[st2 r2]|] eqn:Hget.
    + exists st1, st2. split; [done|]. split; [done|].
      vm_compute in Hput. injection Hput as <-.
      vm_compute in Hget. injection Hget as <- <-. by vm_compute.
    + vm_compute in Hput. injection Hput as <-. by vm_compute in Hget.
Qed.

(** ** The claims at concrete states *)


(** C2 after three insertions, at the head, after line 1 and at the head
    again, for calls in an order that takes each of the four walks. *)
Lemma cache_equivalence_three_lines :
  init_buffers (-2) no_faults boot_state = Some fresh_state
  ∧ ∃ st,
      insert_lines [Insertion 0 0 5; Insertion 1 5 5; Insertion 0 10 3]
                   fresh_state = Some st
      ∧ (Forall (λ n, 0 ≤ n ≤ addr_last st) [3; 0; 1; 3; 2; 0] →
         ∃ rs st',
           node_at_calls [3; 0; 1; 3; 2; 0] st = Some (rs, st')
           ∧ Forall2 (λ n r, linear_node_at (heap st) n = Some r.1
                             ∧ r.2 = (n, r.1)) [3; 0; 1; 3; 2; 0] rs).
Proof.
  split; [apply init_buffers_no_faults|].
  apply (cache_equivalence (-2) no_faults fresh_state).
  apply init_buffers_no_faults.
Defined.

(** C3 at the state holding two lines. *)
Lemma ordinal_bijection_two_lines :
  registry_ok two_lines [2%nat; 3%nat]
  ∧ (length [2%nat; 3%nat] < 3)%nat
  ∧ (∀ lp, reachable (heap two_lines) lp →
       ∃ n st',
         get_line_node_addr (-2) 3 lp two_lines = Some (two_lines, n)
         ∧ get_addressed_line_node n two_lines = Some (st', lp))
  ∧ (∀ n, 1 ≤ n ≤ addr_last two_lines →
       ∃ lp st',
         get_addressed_line_node n two_lines = Some (st', lp)
         ∧ get_line_node_addr (-2) 3 lp st' = Some (st', n)).
Proof.
  split; [apply two_lines_registry_ok|]. split; [simpl; lia|].
  apply (ordinal_bijection (-2) two_lines [2%nat; 3%nat] 3).
  - apply two_lines_registry_ok.
  - simpl. lia.
Defined.

(** C4 as claimed fails: with two lines in the registry, the ordinals 3
    and -1 are outside [0, 2], and get_addressed_line_node reports no
    error for them.  It returns the last line for 3 and the sentinel for
    -1, and the error message is the one on entry. *)
Lemma node_at_out_of_range :
  addr_last two_lines = 2
  ∧ get_addressed_line_node 3 two_lines
    = Some (set_cache 2 3%nat two_lines, 3%nat)
  ∧ get_addressed_line_node (-1) two_lines
    = Some (set_cache 0 buffer_head two_lines, buffer_head)
  ∧ errmsg (set_cache 2 3%nat two_lines) = errmsg two_lines
  ∧ 3%nat ≠ NULL.
Proof. repeat split; by vm_compute. Qed.

(** C4 as the code has it, at the state holding two lines. *)
Lemma node_at_no_range_check_two_lines :
  registry_ok two_lines [2%nat; 3%nat]
  ∧ ∃ p c,
      get_addressed_line_node 3 two_lines = Some (set_cache c p two_lines, p)
      ∧ p ≠ NULL
      ∧ (buffer_head :: [2%nat; 3%nat]) !! Z.to_nat c = Some p
      ∧ (0 ≤ 3 ≤ addr_last two_lines → c = 3)
      ∧ (3 ≤ 0 → c = 0 ∧ p = buffer_head)
      ∧ (addr_last two_lines ≤ 3 →
         c = addr_last two_lines
         ∧ last (buffer_head :: [2%nat; 3%nat]) = Some p).
Proof.
  split; [apply two_lines_registry_ok|].
  apply (node_at_no_range_check two_lines [2%nat; 3%nat] 3).
  apply two_lines_registry_ok.
Defined.



(** C6 as claimed fails: when fclose fails in the state holding two
    lines, close_sbuf returns ERR and the cursor is still 10, not 0. *)
Lemma close_failure_keeps_cursor :
  close_sbuf (-2) close_fault two_lines
  = Some (seterrmsg "cannot close temp file" (set_sfp ClosedStream two_lines),
          -2)
  ∧ sfpos (seterrmsg "cannot close temp file"
             (set_sfp ClosedStream two_lines)) = 10
  ∧ sfpos (seterrmsg "cannot close temp file"
             (set_sfp ClosedStream two_lines)) ≠ 0.
Proof. repeat split; by vm_compute. Qed.

(** C6 as the code has it, at a close that succeeds. *)
Lemma close_sbuf_resets_two_lines :
  close_sbuf (-2) no_faults two_lines
  = Some (set_seek_write false
            (set_sfpos 0 (set_sfp NoStream (set_sfn_linked false two_lines))),
          0)
  ∧ (sfp two_lines = NoStream ∨ fclose_fails no_faults = false →
     0 = 0
     ∧ sfpos (set_seek_write false
                (set_sfpos 0 (set_sfp NoStream (set_sfn_linked false two_lines))))
       = 0
     ∧ seek_write (set_seek_write false
                     (set_sfpos 0 (set_sfp NoStream
                                     (set_sfn_linked false two_lines))))
       = false
     ∧ sfp (set_seek_write false
              (set_sfpos 0 (set_sfp NoStream (set_sfn_linked false two_lines))))
       = NoStream).
Proof.
  split; [reflexivity|].
  apply (close_sbuf_resets (-2) no_faults two_lines
           (set_seek_write false
              (set_sfpos 0 (set_sfp NoStream (set_sfn_linked false two_lines))))
           0).
  reflexivity.
Defined.

(** C7 at the fresh state: with LINECHARS = 6 the 5 bytes of "hello" are
    accepted and stored as line 1; with LINECHARS = 5 they are rejected. *)
Lemma line_length_boundary_hello :
  registry_ok fresh_state []
  ∧ sfp fresh_state = OpenStream (File [] 0)
  ∧ (newline ∉ text "hello")
  ∧ Z.of_nat (length (text "hello")) = 6 - 1
  ∧ Z.of_nat (length (text "hello")) = 5
  ∧ (let lp := fresh ({[NULL]} ∪ dom (heap fresh_state)) in
     let c := Z.to_nat (clamp (current_addr fresh_state)
                          (addr_last fresh_state)) in
     ∃ st', put_sbuf_line 6 no_faults (text "hello" ++ [newline]) fresh_state
            = Some (st', Some [])
            ∧ heap fresh_state !! lp = None
            ∧ registry_ok st' (take c [] ++ lp :: drop c [])
            ∧ addr_last st' = addr_last fresh_state + 1
            ∧ current_addr st' = current_addr fresh_state + 1
            ∧ descriptor (heap st') lp
              = Some (cursor_before_write fresh_state, 6 - 1)
            ∧ (∀ q, q ≠ lp →
                 descriptor (heap st') q = descriptor (heap fresh_state) q)
            ∧ sfpos st' = cursor_before_write fresh_state + (6 - 1)
            ∧ seek_write st' = false
            ∧ sfp st' = OpenStream
                (File (write_at (Z.to_nat (write_pos fresh_state (File [] 0)))
                         (text "hello") (f_data (File [] 0)))
                      (write_pos fresh_state (File [] 0) + (6 - 1))))
  ∧ (∀ e, put_sbuf_line 5 e (text "hello" ++ [newline]) fresh_state
          = Some (seterrmsg (if malloc_fails e then "out of memory"
                             else "line too long") fresh_state, None)).
Proof.
  assert (Z.of_nat (length (text "hello")) = 6 - 1) as Hshort by reflexivity.
  assert (Z.of_nat (length (text "hello")) = 5) as Hlong by reflexivity.
  split; [apply fresh_state_registry_ok|]. split; [reflexivity|].
  split; [apply text_no_newline_hello|].
  split; [exact Hshort|]. split; [exact Hlong|]. split.
  - apply (proj1 (line_length_boundary 6 fresh_state [] (File [] 0)
                    (text "hello") [] fresh_state_registry_ok eq_refl
                    text_no_newline_hello) Hshort).
  - apply (proj2 (line_length_boundary 5 fresh_state [] (File [] 0)
                    (text "hello") [] fresh_state_registry_ok eq_refl
                    text_no_newline_hello) Hlong).
Defined.

(** C8 at the first append to the fresh state. *)
Lemma append_postcondition_hello :
  put_sbuf_line 100 no_faults (text "hello" ++ [newline]) fresh_state
  = Some (one_line, Some [])
  ∧ ∃ lp t,
      malloc no_faults (heap fresh_state) = Some lp
      ∧ heap fresh_state !! lp = None
      ∧ scan_line (text "hello" ++ [newline]) = Some (t, [])
      ∧ descriptor (heap one_line) lp
        = Some (cursor_before_write fresh_state, Z.of_nat (length t))
      ∧ (∀ q, q ≠ lp →
           descriptor (heap one_line) q = descriptor (heap fresh_state) q)
      ∧ sfpos one_line = cursor_before_write fresh_state + Z.of_nat (length t).
Proof.
  assert (5 < 100) as Hmax by lia.
  split; [apply (one_line_reached 100 Hmax)|].
  apply (proj1 (append_postcondition 100) no_faults
           (text "hello" ++ [newline]) fresh_state one_line []).
  apply (one_line_reached 100 Hmax).
Defined.

(** C9 as claimed fails: in the fresh state the registry is empty, the
    node 7 is not linked into it, and get_line_node_addr returns 0 for it
    and sets no error. *)
Lemma foreign_node_in_empty_registry :
  ¬ reachable (heap fresh_state) 7%nat
  ∧ get_line_node_addr (-2) 1 7%nat fresh_state = Some (fresh_state, 0).
Proof.
  split; [|by vm_compute].
  rewrite (ring_reachable _ [] 7%nat); [|apply fresh_state_registry_ok].
  intros Hin. apply list_elem_of_singleton in Hin. discriminate.
Qed.

(** C9 as the code has it, at the state holding two lines. *)
Lemma line_node_addr_positions_two_lines :
  registry_ok two_lines [2%nat; 3%nat]
  ∧ (length [2%nat; 3%nat] < 3)%nat
  ∧ (∀ k lp, (buffer_head :: [2%nat; 3%nat]) !! k = Some lp →
       get_line_node_addr (-2) 3 lp two_lines = Some (two_lines, Z.of_nat k))
  ∧ (∀ lp, ¬ reachable (heap two_lines) lp → [2%nat; 3%nat] ≠ [] →
       get_line_node_addr (-2) 3 lp two_lines
       = Some (seterrmsg "invalid address" two_lines, -2))
  ∧ (∀ lp, ¬ reachable (heap two_lines) lp → [2%nat; 3%nat] = [] →
       get_line_node_addr (-2) 3 lp two_lines = Some (two_lines, 0)).
Proof.
  split; [apply two_lines_registry_ok|]. split; [simpl; lia|].
  apply (line_node_addr_positions (-2) two_lines [2%nat; 3%nat] 3).
  - apply two_lines_registry_ok.
  - simpl. lia.
Defined.

(** C10 at the state holding two lines. *)
Lemma get_sbuf_line_sentinel_two_lines :
  get_sbuf_line no_faults buffer_head two_lines = Some (two_lines, None)
  ∧ (∀ lp st' r, lp ≠ buffer_head →
       get_sbuf_line no_faults lp two_lines = Some (st', r) →
       seek_write st' = true).
Proof. exact (get_sbuf_line_sentinel no_faults two_lines). Defined.

(** * Further properties of buf.c *)

(** ** What the routines leave alone *)

Lemma get_sbuf_read_frame (e : env) (len : Z) (st st' : ed_state)
    (r : option (list ascii)) :
  get_sbuf_read e len st = Some (st', r) →
  heap st' = heap st ∧ addr_last st' = addr_last st
  ∧ current_addr st' = current_addr st
  ∧ ga_lp st' = ga_lp st ∧ ga_on st' = ga_on st
  ∧ seek_write st' = seek_write st
  ∧ sfn_linked st' = sfn_linked st
  ∧ (∀ f, sfp st = OpenStream f →
          ∃ pos, sfp st' = OpenStream (File (f_data f) pos)).
Proof.
  unfold get_sbuf_read, fread. intros Hget.
  destruct (realloc_fails e).
  { simplify_eq/=. repeat split. intros [d pos] ->. by exists pos. }
  destruct (sfp st) as [|f|] eqn:Hsfp; simpl in Hget; try done.
  destruct (decide (Z.of_nat (length (take (transfer e (Z.to_nat len))
              (drop (Z.to_nat (f_pos f)) (f_data f)))) ≠ len));
    simplify_eq/=; repeat split; intros g [= <-]; eauto.
Qed.

(** get_sbuf_line changes neither the nodes, nor the counters, nor the
    cache of get_addressed_line_node, nor the bytes of the scratch file. *)
Lemma get_sbuf_line_frame (e : env) (lp : ptr) (st st' : ed_state)
    (r : option (list ascii)) :
  get_sbuf_line e lp st = Some (st', r) →
  heap st' = heap st ∧ addr_last st' = addr_last st
  ∧ current_addr st' = current_addr st
  ∧ ga_lp st' = ga_lp st ∧ ga_on st' = ga_on st
  ∧ sfn_linked st' = sfn_linked st
  ∧ (∀ f, sfp st = OpenStream f →
          ∃ pos, sfp st' = OpenStream (File (f_data f) pos)).
Proof.
  unfold get_sbuf_line. intros Hget.
  destruct (decide (lp = buffer_head)).
  { simplify_eq. repeat split. intros [d pos] ->. by exists pos. }
  simpl in Hget. destruct (heap st !! lp) as [nd|]; [|done]. simpl in Hget.
  destruct (decide (sfpos st ≠ adr nd)).
  - destruct (sfp st) as [|f|] eqn:Hsfp; simpl in Hget; try done.
    destruct (do_fseek e f (adr nd) SEEK_SET) as [f'|] eqn:Hseek.
    + unfold do_fseek in Hseek. destruct (seek_fails e); [done|].
      destruct (decide (adr nd < 0)); [done|]. simplify_eq.
      apply get_sbuf_read_frame in Hget
        as (? & ? & ? & ? & ? & _ & ? & Hs). simpl in *.
      repeat split; try done. intros g [= <-].
      destruct (Hs _ eq_refl) as [pos Hpos]. eauto.
    + simplify_eq/=. repeat split. intros g [= <-]. destruct f. eauto.
  - apply get_sbuf_read_frame in Hget
      as (? & ? & ? & ? & ? & _ & ? & Hs). simpl in *.
    repeat split; try done.
Qed.

Lemma add_line_node_linked (lp : ptr) (st st' : ed_state) :
  add_line_node lp st = Some st' → sfn_linked st' = sfn_linked st.
Proof.
  unfold add_line_node, get_addressed_line_node. intros Hadd.
  match type of Hadd with
  | (?x ≫= _) ≫= _ = _ => destruct x as [[on p]|]; [|done]
  end.
  simpl in Hadd. destruct (INSQUE lp p (heap st)); [|done].
  by simplify_eq/=.
Qed.

Lemma put_sbuf_write_stream (e : env) (lp : ptr) (t rest : list ascii)
    (st st' : ed_state) (r : option (list ascii)) :
  put_sbuf_write e lp t rest st = Some (st', r) →
  (∃ f', sfp st' = OpenStream f') ∧ sfn_linked st' = sfn_linked st.
Proof.
  unfold put_sbuf_write. intros Hput.
  destruct (sfp st) as [|f|] eqn:Hsfp; simpl in Hput; try done.
  destruct (decide (length (take (transfer e (length t)) t) ≠ length t)).
  - unfold put_sbuf_fail in Hput. simplify_eq/=. eauto.
  - destruct (store_llen lp _ _) as [h1|]; [|done]. simpl in Hput.
    destruct (store_adr lp _ h1) as [h2|]; [|done]. simpl in Hput.
    match type of Hput with
    | add_line_node _ ?s ≫= _ = _ =>
        destruct (add_line_node lp s) as [st2|] eqn:Hadd; [|done]
    end.
    simpl in Hput. simplify_eq/=.
    pose proof (add_line_node_linked _ _ _ Hadd) as Hl.
    apply add_line_node_frame in Hadd as (Hf & _). simpl in *.
    rewrite Hf, Hl. eauto.
Qed.

(** Neither routine closes the stream or unlinks the scratch file. *)
Lemma put_sbuf_line_stream (LINECHARS : Z) (e : env) (cs : list ascii)
    (st st' : ed_state) (r : option (list ascii)) :
  put_sbuf_line LINECHARS e cs st = Some (st', r) →
  (∃ f, sfp st = OpenStream f) →
  (∃ f', sfp st' = OpenStream f') ∧ sfn_linked st' = sfn_linked st.
Proof.
  unfold put_sbuf_line. intros Hput [f Hsfp].
  destruct (malloc e (heap st)) as [lp|]; [|simplify_eq/=; eauto].
  destruct (scan_line cs) as [[t rest]|]; [|done]. simpl in Hput.
  destruct (decide (Z.of_nat (length t) >= LINECHARS)).
  { unfold put_sbuf_fail in Hput. simplify_eq/=. eauto. }
  destruct (seek_write st).
  - rewrite Hsfp in Hput. simpl in Hput.
    destruct (do_fseek e f 0 SEEK_END) as [f'|].
    + by apply put_sbuf_write_stream in Hput.
    + unfold put_sbuf_fail in Hput. simplify_eq/=. eauto.
  - by apply put_sbuf_write_stream in Hput.
Qed.

Lemma put_sbuf_write_fail_frame (e : env) (lp : ptr) (t rest : list ascii)
    (st st' : ed_state) :
  put_sbuf_write e lp t rest st = Some (st', None) →
  heap st' = delete lp (heap st) ∧ addr_last st' = addr_last st
  ∧ current_addr st' = current_addr st
  ∧ ga_lp st' = ga_lp st ∧ ga_on st' = ga_on st.
Proof.
  unfold put_sbuf_write. intros Hput.
  destruct (sfp st) as [|f|] eqn:Hsfp; simpl in Hput; try done.
  destruct (decide (length (take (transfer e (length t)) t) ≠ length t)).
  - unfold put_sbuf_fail, free in Hput. by simplify_eq/=.
  - destruct (store_llen lp _ _) as [h1|]; [|done]. simpl in Hput.
    destruct (store_adr lp _ h1) as [h2|]; [|done]. simpl in Hput.
    match type of Hput with
    | add_line_node _ ?s ≫= _ = _ =>
        destruct (add_line_node lp s) as [st2|]; [|done]
    end.
    done.
Qed.

(** ** Failure of put_sbuf_line *)

(** X1 (no partial line).  Whenever put_sbuf_line returns NULL, in any
    environment, the registry is the one on entry: the same nodes with the
    same links and descriptors, the same counters and the same cache; the
    node it had allocated is freed again.  The error message is one of the
    four of the routine. *)
Theorem put_sbuf_line_failure_keeps_registry (LINECHARS : Z) (e : env)
    (cs : list ascii) (st st' : ed_state) :
  put_sbuf_line LINECHARS e cs st = Some (st', None) →
  heap st' = heap st
  ∧ addr_last st' = addr_last st
  ∧ current_addr st' = current_addr st
  ∧ ga_lp st' = ga_lp st ∧ ga_on st' = ga_on st
  ∧ errmsg st' ∈ ["out of memory"; "line too long"; "cannot seek temp file";
                  "cannot write temp file"]%string.
Proof.
  unfold put_sbuf_line. intros Hput.
  destruct (malloc e (heap st)) as [lp|] eqn:Hm.
  2:{ simplify_eq/=. repeat split. set_solver. }
  apply malloc_Some in Hm as [_ Hfr].
  assert (delete lp (<[lp:=Line NULL NULL 0 0]> (heap st)) = heap st) as Hdel
    by by apply delete_insert_id.
  destruct (scan_line cs) as [[t rest]|]; [|done]. simpl in Hput.
  destruct (decide (Z.of_nat (length t) >= LINECHARS)).
  { unfold put_sbuf_fail, free in Hput. simplify_eq/=.
    repeat split; [done|set_solver]. }
  destruct (seek_write st).
  - destruct (sfp st) as [|f|]; simpl in Hput; try done.
    destruct (do_fseek e f 0 SEEK_END) as [f'|].
    + pose proof (put_sbuf_write_None _ _ _ _ _ _ Hput) as [_ Hmsg].
      apply put_sbuf_write_fail_frame in Hput as (Hh & ? & ? & ? & ?).
      simpl in *. rewrite Hh, Hmsg. repeat split; try done. set_solver.
    + unfold put_sbuf_fail, free in Hput. simplify_eq/=.
      repeat split; [done|set_solver].
  - pose proof (put_sbuf_write_None _ _ _ _ _ _ Hput) as [_ Hmsg].
    apply put_sbuf_write_fail_frame in Hput as (Hh & ? & ? & ? & ?).
    simpl in *. rewrite Hh, Hmsg. repeat split; try done. set_solver.
Qed.

(** ** Reads *)

(** X2 (reads change nothing).  Any sequence of get_sbuf_line calls, in any
    environments and whether the calls fail or not, leaves the nodes, the
    counters and the cache of get_addressed_line_node as they were, keeps
    the stream open and keeps every byte of the scratch file. *)
Theorem reads_change_nothing (LINECHARS : Z) (cs : list call) (st st' : ed_state) :
  Forall (λ c, ∃ e lp, c = Get e lp) cs →
  run_calls LINECHARS cs st = Some st' →
  heap st' = heap st
  ∧ addr_last st' = addr_last st
  ∧ current_addr st' = current_addr st
  ∧ ga_lp st' = ga_lp st ∧ ga_on st' = ga_on st
  ∧ (∀ f, sfp st = OpenStream f →
          ∃ pos, sfp st' = OpenStream (File (f_data f) pos)).
Proof.
  intros Hall. revert st. induction Hall as [|c cs (e & lp & ->) _ IH];
    intros st Hrun; simpl in Hrun.
  - simplify_eq. repeat split. intros [d pos] ->. by exists pos.
  - destruct (get_sbuf_line e lp st) as [[st1 r]|] eqn:Hget; [|done].
    simpl in Hrun.
    apply get_sbuf_line_frame in Hget as (Hh & Hl & Hc & Hp & Ho & _ & Hs).
    apply IH in Hrun as (Hh' & Hl' & Hc' & Hp' & Ho' & Hs').
    rewrite Hh', Hl', Hc', Hp', Ho'. repeat split; try done.
    intros f Hf. destruct (Hs f Hf) as [pos Hpos].
    destruct (Hs' _ Hpos) as [pos' Hpos']. eauto.
Qed.

(** ** The life of the scratch file *)

Lemma init_buffers_fresh (ERR : Z) (e : env) (st : ed_state) :
  ERR < 0 →
  init_buffers ERR e boot_state = Some st → st = fresh_state.
Proof.
  unfold init_buffers, open_sbuf. intros Herr Hinit.
  destruct (malloc_fails e); [done|].
  destruct (mkstemp_fails e), (fdopen_fails e); simpl in Hinit;
    try (by rewrite decide_True in Hinit by done).
  rewrite REQUE_boot in Hinit. by simplify_eq/=.
Qed.

(** X3 (outcome of init_buffers).  With a negative error code, init_buffers
    on the state of a starting process has two outcomes: the process exits
    when the allocation of the file name, [mkstemp] or [fdopen] fails, and
    otherwise the state is [fresh_state], with an empty scratch file open
    at position 0, the cursor at 0, an empty ring and no error message. *)
Theorem init_buffers_outcome (ERR : Z) (e : env) :
  ERR < 0 →
  init_buffers ERR e boot_state
  = if malloc_fails e || mkstemp_fails e || fdopen_fails e then None
    else Some fresh_state.
Proof.
  unfold init_buffers, open_sbuf. intros Herr.
  destruct (malloc_fails e); [done|].
  destruct (mkstemp_fails e), (fdopen_fails e); simpl;
    try (by rewrite decide_True by done).
  by rewrite REQUE_boot.
Qed.

Lemma run_calls_stream (LINECHARS : Z) (cs : list call) (st st' : ed_state) :
  run_calls LINECHARS cs st = Some st' →
  (∃ f, sfp st = OpenStream f) →
  (∃ f', sfp st' = OpenStream f') ∧ sfn_linked st' = sfn_linked st.
Proof.
  revert st. induction cs as [|c cs IH]; intros st Hrun Hopen; simpl in Hrun.
  - by simplify_eq.
  - destruct (run_call LINECHARS c st) as [st1|] eqn:Hcall; [|done].
    simpl in Hrun.
    assert ((∃ f1, sfp st1 = OpenStream f1) ∧ sfn_linked st1 = sfn_linked st)
      as [Hopen1 Hl1].
    { destruct c as [e buf|e lp]; simpl in Hcall.
      - destruct (put_sbuf_line LINECHARS e buf st) as [[s r]|] eqn:Hput;
          [|done].
        simpl in Hcall. simplify_eq.
        by apply (put_sbuf_line_stream _ _ _ _ _ _ Hput).
      - destruct (get_sbuf_line e lp st) as [[s r]|] eqn:Hget; [|done].
        simpl in Hcall. simplify_eq.
        apply get_sbuf_line_frame in Hget as (_ & _ & _ & _ & _ & Hl & Hs).
        split; [|done]. destruct Hopen as [f Hf].
        destruct (Hs f Hf) as [pos Hpos]. eauto. }
    destruct (IH st1 Hrun Hopen1) as [Hopen' Hl']. split; [done|congruence].
Qed.

(** X4 (no scratch file is left at exit).  After init_buffers and any
    sequence of put_sbuf_line and get_sbuf_line calls, in any environments
    and whether the calls fail or not, the stream is still open and the
    file still has its name; quit then exits with the status it is given
    and the scratch file is unlinked, whatever fclose returns. *)
Theorem quit_removes_scratch_file (ERR LINECHARS : Z) (e : env)
    (cs : list call) (st0 st : ed_state) (n : Z) :
  ERR < 0 →
  init_buffers ERR e boot_state = Some st0 →
  run_calls LINECHARS cs st0 = Some st →
  sfn_linked st = true
  ∧ ∃ st', quit n st = Some (st', n) ∧ sfn_linked st' = false.
Proof.
  intros Herr Hinit Hrun.
  apply (init_buffers_fresh ERR e st0 Herr) in Hinit as ->.
  destruct (run_calls_stream _ _ _ _ Hrun) as [[f Hf] Hl]; [by eexists|].
  split; [by rewrite Hl|]. unfold quit. rewrite Hf. eauto.
Qed.

(** X5 (close, then open again).  When the stream is open and fclose
    succeeds, close_sbuf returns 0 and unlinks the file.  An open_sbuf that
    follows and succeeds gives an empty scratch file whose cursor is its
    real position and which is ready for an append; one that fails returns
    ERR with "cannot open temp file" and leaves no stream and no file.  The
    nodes and the counters of the registry are those before the close. *)
Theorem close_then_open (ERR : Z) (e1 e2 : env) (st : ed_state) (f : file) :
  sfp st = OpenStream f →
  fclose_fails e1 = false →
  ∃ st1,
    close_sbuf ERR e1 st = Some (st1, 0)
    ∧ sfn_linked st1 = false
    ∧ heap (open_sbuf ERR e2 st1).1 = heap st
    ∧ addr_last (open_sbuf ERR e2 st1).1 = addr_last st
    ∧ if mkstemp_fails e2 || fdopen_fails e2 then
        (open_sbuf ERR e2 st1).2 = ERR
        ∧ errmsg (open_sbuf ERR e2 st1).1 = "cannot open temp file"%string
        ∧ sfp (open_sbuf ERR e2 st1).1 = NoStream
        ∧ sfn_linked (open_sbuf ERR e2 st1).1 = false
      else
        (open_sbuf ERR e2 st1).2 = 0
        ∧ sfp (open_sbuf ERR e2 st1).1 = OpenStream (File [] 0)
        ∧ sfn_linked (open_sbuf ERR e2 st1).1 = true
        ∧ cursor_ok (open_sbuf ERR e2 st1).1
        ∧ store_ready (open_sbuf ERR e2 st1).1.
Proof.
  intros Hsfp Hclose. unfold close_sbuf. rewrite Hsfp, Hclose.
  eexists. split; [done|]. unfold open_sbuf.
  destruct (mkstemp_fails e2), (fdopen_fails e2); simpl; repeat split;
    try done; eexists; by repeat split.
Qed.

(** ** Lines stay readable *)

Lemma write_at_end (t data : list ascii) :
  write_at (length data) t data = data ++ t.
Proof.
  unfold write_at. destruct t as [|c t]; [by rewrite app_nil_r|].
  rewrite firstn_all, Nat.sub_diag. simpl.
  rewrite drop_ge by lia. by rewrite app_nil_r.
Qed.

(** A line that is stored stays stored when bytes are added at the end of
    the file and its descriptor is kept. *)
Lemma line_stored_app (h h' : gmap nat line_t) (data extra : list ascii)
    (p : ptr) (t : list ascii) :
  descriptor h' p = descriptor h p →
  line_stored h data p t → line_stored h' (data ++ extra) p t.
Proof.
  intros Hd (a & Hdesc & Ha & Hend & Hbytes). exists a.
  rewrite Hd. split; [done|]. split; [done|]. split.
  - rewrite length_app. lia.
  - rewrite drop_app_le by lia. rewrite take_app_le; [done|].
    rewrite length_drop. lia.
Qed.

Lemma lines_stored_get (st : ed_state) (ls : list ptr) (txts : list (list ascii))
    (i : nat) (p : ptr) (t : list ascii) :
  lines_stored st ls txts →
  ls !! i = Some p → txts !! i = Some t →
  p ≠ buffer_head →
  ∃ st', get_sbuf_line no_faults p st = Some (st', Some t)
         ∧ lines_stored st' ls txts.
Proof.
  intros (f & Hsfp & Hcur & Hpos & Hend & Hall) Hp Ht Hhd.
  pose proof (Forall2_lookup_lr _ _ _ _ _ _ Hall Hp Ht)
    as (a & Hdesc & Ha & Hbound & Hbytes).
  destruct (get_sbuf_line_reads p st f a (Z.of_nat (length t)) t)
    as (st' & Hget); try done.
  { intros Heq. lia. }
  { by rewrite Nat2Z.id. }
  exists st'. split; [done|].
  pose proof (get_sbuf_line_frame _ _ _ _ _ Hget) as (Hh & _).
  apply get_sbuf_line_Some in Hget
    as (nd & g & pos & _ & Hnd & Hg & Hcase & _ & Hlen & Hsfp' & Hpos' & Hsw & _).
  rewrite Hsfp in Hg. injection Hg as <-.
  unfold descriptor in Hdesc. rewrite Hnd in Hdesc. simpl in Hdesc.
  injection Hdesc as Hadr Hllen.
  eexists. split; [done|]. simpl. rewrite Hh, Hsw.
  split; [destruct Hcase as [[-> _]|[-> ?]]; lia|].
  split; [destruct Hcase as [[-> _]|[-> ?]]; lia|].
  split; [done|done].
Qed.

Lemma lines_stored_put (LINECHARS : Z) (st : ed_state) (ls : list ptr)
    (txts : list (list ascii)) (t rest : list ascii) :
  registry_ok st ls →
  lines_stored st ls txts →
  valid_line LINECHARS t →
  let lp := fresh ({[NULL]} ∪ dom (heap st)) in
  let c := Z.to_nat (clamp (current_addr st) (addr_last st)) in
  ∃ st',
    put_sbuf_line LINECHARS no_faults (t ++ newline :: rest) st
    = Some (st', Some rest)
    ∧ registry_ok st' (take c ls ++ lp :: drop c ls)
    ∧ lines_stored st' (take c ls ++ lp :: drop c ls)
                       (take c txts ++ t :: drop c txts)
    ∧ current_addr st' = current_addr st + 1.
Proof.
  intros Hok (f & Hsfp & Hcur & Hpos & Hend & Hall) [Hnl Hlen] lp c.
  destruct (put_sbuf_line_defined LINECHARS no_faults t rest st ls f)
    as (st' & Hput & Hok' & Hca); try done.
  exists st'. split; [done|]. split; [done|]. split; [|done].
  destruct (put_sbuf_line_Some _ _ _ _ _ _ Hput)
    as (lp' & t' & g & Hm & Hscan & _ & Hd & Hfr & Hpos' & Hsw & Hdom & Hg & Hsfp').
  rewrite scan_line_app in Hscan by done. injection Hscan as <-.
  rewrite Hsfp in Hg. injection Hg as <-.
  pose proof (malloc_Some _ _ _ Hm) as [_ Hnone].
  unfold malloc in Hm. simpl in Hm. injection Hm as <-. fold lp in Hd, Hfr, Hnone.
  assert (write_pos st f = Z.of_nat (length (f_data f))
          ∧ cursor_before_write st = Z.of_nat (length (f_data f))) as [Hwp Hcbw].
  { unfold write_pos, cursor_before_write. rewrite Hsfp.
    destruct (seek_write st); [done|]. rewrite Hcur, Hend; done. }
  rewrite Hwp, Nat2Z.id, write_at_end in Hsfp'. rewrite Hcbw in Hd, Hpos'.
  eexists. split; [done|]. simpl. rewrite length_app.
  split; [lia|]. split; [lia|]. split; [lia|].
  assert (Forall2 (line_stored (heap st') (f_data f ++ t)) ls txts) as Hall'.
  { eapply Forall2_impl; [exact Hall|]. intros p x Hst.
    apply (line_stored_app (heap st)); [|done].
    apply Hfr. intros ->. destruct Hst as (a & Hdesc & _).
    unfold descriptor in Hdesc. by rewrite Hnone in Hdesc. }
  apply Forall2_app; [by apply Forall2_take|].
  apply Forall2_cons. split; [|by apply Forall2_drop].
  exists (Z.of_nat (length (f_data f))). split; [done|]. split; [lia|].
  split; [rewrite length_app; lia|].
  rewrite Nat2Z.id, drop_app_length. by rewrite firstn_all.
Qed.

Lemma ring_not_head (h : gmap nat line_t) (ls : list ptr) (i : nat) (p : ptr) :
  ring h ls → ls !! i = Some p → p ≠ buffer_head.
Proof.
  intros (Hnd & _) Hp ->. apply NoDup_cons in Hnd as [Hnin _].
  apply Hnin. by eapply list_elem_of_lookup_2.
Qed.


Lemma fresh_state_lines_stored : lines_stored fresh_state [] [].
Proof. eexists. by repeat split. Qed.

Lemma append_lines_stored (LINECHARS : Z) (new : list (list ascii)) :
  ∀ (st : ed_state) (ls : list ptr) (old : list (list ascii)),
    registry_ok st ls →
    lines_stored st ls old →
    current_addr st = addr_last st →
    Forall (valid_line LINECHARS) new →
    ∃ st' ls',
      append_lines LINECHARS new st = Some st'
      ∧ registry_ok st' (ls ++ ls')
      ∧ lines_stored st' (ls ++ ls') (old ++ new)
      ∧ current_addr st' = addr_last st'
      ∧ length ls' = length new.
Proof.
  induction new as [|t new IH]; intros st ls old Hok Hst Hcur Hval; simpl.
  - exists st, []. by rewrite !app_nil_r.
  - apply Forall_cons in Hval as [Hv Hval].
    destruct (lines_stored_put LINECHARS st ls old t [] Hok Hst Hv)
      as (st1 & Hput & Hok1 & Hst1 & Hcur1).
    assert (addr_last st = Z.of_nat (length ls)) as Hlast
      by by destruct Hok as (_ & _ & ? & _).
    assert (length old = length ls) as Hlen.
    { destruct Hst as (f & _ & _ & _ & _ & Hall). symmetry.
      by eapply Forall2_length. }
    replace (Z.to_nat (clamp (current_addr st) (addr_last st)))
      with (length ls) in Hok1, Hst1 by (unfold clamp; lia).
    rewrite take_ge, drop_ge in Hok1, Hst1 by lia.
    rewrite take_ge, drop_ge in Hst1 by lia.
    rewrite Hput. simpl.
    assert (addr_last st1 = Z.of_nat (length ls) + 1) as Hlast1.
    { destruct Hok1 as (_ & _ & -> & _). rewrite length_app. simpl. lia. }
    destruct (IH st1 _ _ Hok1 Hst1) as (st' & ls' & Happ & Hok' & Hst' & Hcur' & Hlen');
      [lia|done|].
    exists st', (fresh ({[NULL]} ∪ dom (heap st)) :: ls').
    rewrite <- (app_assoc ls) in Hok', Hst'.
    rewrite <- (app_assoc old) in Hst'. simpl in Hok', Hst'.
    split; [done|]. split; [done|]. split; [done|]. split; [done|].
    simpl. by rewrite Hlen'.
Qed.

(** X7 (sequential append).  Valid lines appended in order to the store of
    a fresh state, without faults, are all stored; the registry then
    counts them, the current address is the last line, and for every k the
    node at ordinal k + 1 is the line appended as number k (from 0), whose
    text get_sbuf_line reads back. *)
Theorem sequential_append_reads_back (LINECHARS : Z) (txts : list (list ascii)) :
  Forall (valid_line LINECHARS) txts →
  ∃ st ls,
    append_lines LINECHARS txts fresh_state = Some st
    ∧ registry_ok st ls
    ∧ addr_last st = Z.of_nat (length txts)
    ∧ current_addr st = Z.of_nat (length txts)
    ∧ ∀ k t, txts !! k = Some t →
        ∃ st1 p st2,
          get_addressed_line_node (Z.of_nat k + 1) st = Some (st1, p)
          ∧ ls !! k = Some p
          ∧ get_sbuf_line no_faults p st1 = Some (st2, Some t).
Proof.
  intros Hval.
  destruct (append_lines_stored LINECHARS txts fresh_state [] []
              fresh_state_registry_ok fresh_state_lines_stored eq_refl Hval)
    as (st & ls & Happ & Hok & Hst & Hcur & Hlen).
  simpl in Hok, Hst.
  assert (addr_last st = Z.of_nat (length txts)) as Hlast.
  { destruct Hok as (_ & _ & -> & _). by rewrite Hlen. }
  exists st, ls. split; [done|]. split; [done|]. split; [done|].
  split; [congruence|]. intros k t Ht.
  pose proof (lookup_lt_Some _ _ _ Ht) as Hk.
  destruct (node_at_clamped st ls (Z.of_nat k + 1) Hok) as (p & Hcall & Hp).
  rewrite clamp_in_range in Hcall, Hp by lia.
  replace (Z.to_nat (Z.of_nat k + 1)) with (S k) in Hp by lia. simpl in Hp.
  assert (p ≠ buffer_head) as Hhd
    by (destruct Hok as (Hr & _); by eapply ring_not_head).
  set (st1 := set_cache (Z.of_nat k + 1) p st) in *.
  assert (lines_stored st1 ls txts) as Hst1 by exact Hst.
  destruct (lines_stored_get st1 ls txts k p t Hst1 Hp Ht Hhd) as (st2 & Hget & _).
  exists st1, p, st2. done.
Qed.

(** ** Where add_line_node puts a line *)

Lemma linear_node_at_index (st : ed_state) (ls : list ptr) (k : Z) :
  registry_ok st ls →
  0 ≤ k ≤ addr_last st →
  linear_node_at (heap st) k = (buffer_head :: ls) !! Z.to_nat k.
Proof.
  intros Hok Hk.
  assert (is_Some ((buffer_head :: ls) !! Z.to_nat k)) as [p Hp].
  { apply lookup_lt_is_Some. destruct Hok as (_ & _ & Hl & _). simpl. lia. }
  rewrite Hp. by apply (linear_node_at_lookup st ls).
Qed.

Lemma lookup_insert_middle (ls : list ptr) (x : ptr) (c i : nat) :
  (c ≤ length ls)%nat →
  (take c ls ++ x :: drop c ls) !! i
  = if decide (i < c)%nat then ls !! i
    else if decide (i = c) then Some x
    else ls !! (i - 1)%nat.
Proof.
  intros Hc. destruct (decide (i < c)%nat) as [Hlt|Hge].
  - rewrite lookup_app_l by (rewrite length_take_le; lia).
    by rewrite lookup_take_lt.
  - rewrite lookup_app_r by (rewrite length_take_le; lia).
    rewrite length_take_le by lia.
    destruct (decide (i = c)) as [->|Hne].
    + by rewrite Nat.sub_diag.
    + replace (i - c)%nat with (S (i - c - 1)) by lia. simpl.
      rewrite lookup_drop. f_equal. lia.
Qed.

(** X8 (place of an insertion).  On a well-formed registry with the current
    address in [0, addr_last], add_line_node of an allocated node that is
    not in the ring links it right after the current line: the ordinals up
    to the current address resolve as before, the next ordinal resolves to
    the new node, every later line moves up by one, and both [addr_last]
    and [current_addr] grow by one, so that the new line is the current
    line. *)
Theorem add_line_node_position (st : ed_state) (ls : list ptr) (lp : ptr) :
  registry_ok st ls →
  lp ∈ dom (heap st) →
  lp ∉ buffer_head :: ls →
  0 ≤ current_addr st ≤ addr_last st →
  ∃ st',
    add_line_node lp st = Some st'
    ∧ addr_last st' = addr_last st + 1
    ∧ current_addr st' = current_addr st + 1
    ∧ linear_node_at (heap st') (current_addr st') = Some lp
    ∧ (∀ k, 0 ≤ k ≤ current_addr st →
         linear_node_at (heap st') k = linear_node_at (heap st) k)
    ∧ (∀ k, current_addr st < k ≤ addr_last st →
         linear_node_at (heap st') (k + 1) = linear_node_at (heap st) k).
Proof.
  intros Hok Hdom Hnin Hcur.
  destruct (add_line_node_registry_ok st ls lp Hok Hdom Hnin)
    as (h' & p & Hadd & Hok' & _).
  rewrite clamp_in_range in Hadd, Hok' by done.
  eexists. split; [exact Hadd|].
  assert (addr_last st = Z.of_nat (length ls)) as Hlast
    by by destruct Hok as (_ & _ & ? & _).
  set (c := Z.to_nat (current_addr st)) in *.
  assert (c ≤ length ls)%nat as Hc by lia.
  split; [done|]. split; [done|]. split; [|split].
  - rewrite (linear_node_at_index _ _ _ Hok') by (simpl; lia). simpl.
    replace (Z.to_nat (current_addr st + 1)) with (S c) by lia. simpl.
    rewrite lookup_insert_middle by done.
    rewrite decide_False by lia. by rewrite decide_True.
  - intros k Hk.
    rewrite (linear_node_at_index _ _ _ Hok') by (simpl; lia).
    rewrite (linear_node_at_index _ _ _ Hok) by lia.
    destruct (Z.to_nat k) as [|i] eqn:Hi; [done|]. simpl.
    rewrite lookup_insert_middle by done. by rewrite decide_True by lia.
  - intros k Hk.
    rewrite (linear_node_at_index _ _ _ Hok') by (simpl; lia).
    rewrite (linear_node_at_index _ _ _ Hok) by lia.
    replace (Z.to_nat (k + 1)) with (S (Z.to_nat k)) by lia.
    destruct (Z.to_nat k) as [|i] eqn:Hi; [lia|]. simpl.
    rewrite lookup_insert_middle by done.
    rewrite !decide_False by lia. f_equal. lia.
Qed.

(** ** The cost of get_addressed_line_node *)

(** X9 (hops of a lookup).  On a well-formed registry, for an ordinal in
    [0, addr_last], the number of links that get_addressed_line_node
    follows is at most the distance of the ordinal from the cached
    ordinal, at most its distance from the last line, and at most one more
    than its distance from the sentinel; that many links lead to the node
    it returns from the cached node, from the last node or from the
    sentinel.  A repeated lookup follows no link, a lookup next to the
    cached ordinal at most one. *)
Theorem node_at_hop_bound (st : ed_state) (ls : list ptr) (n : Z) :
  registry_ok st ls →
  0 ≤ n ≤ addr_last st →
  Z.of_nat (node_at_hops n st) ≤ Z.abs (n - ga_on st)
  ∧ Z.of_nat (node_at_hops n st) ≤ addr_last st - n
  ∧ Z.of_nat (node_at_hops n st) ≤ n + 1
  ∧ ∃ st' p tl,
      get_addressed_line_node n st = Some (st', p)
      ∧ back (heap st) buffer_head = Some tl
      ∧ (hops (forw (heap st)) (node_at_hops n st) (ga_lp st) = Some p
         ∨ hops (back (heap st)) (node_at_hops n st) (ga_lp st) = Some p
         ∨ hops (back (heap st)) (node_at_hops n st) tl = Some p
         ∨ hops (forw (heap st)) (node_at_hops n st) buffer_head = Some p).
Proof.
  intros Hok Hn.
  destruct (node_at_clamped st ls n Hok) as (p & Hcall & Hp).
  rewrite clamp_in_range in Hcall, Hp by done.
  destruct Hok as (Hr & _ & Hlast & Hon & Hlp).
  assert (is_Some ((buffer_head :: ls) !! length ls)) as [tl Htl].
  { apply lookup_lt_is_Some. simpl. lia. }
  pose proof (shiftr_1_bounds (ga_on st + addr_last st)) as Hs1.
  pose proof (shiftr_1_bounds (ga_on st)) as Hs2.
  assert (∀ k : nat, (hops (forw (heap st)) k (ga_lp st) = Some p
         ∨ hops (back (heap st)) k (ga_lp st) = Some p
         ∨ hops (back (heap st)) k tl = Some p
         ∨ hops (forw (heap st)) k buffer_head = Some p) →
    ∃ st' p0 tl0, get_addressed_line_node n st = Some (st', p0)
      ∧ back (heap st) buffer_head = Some tl0
      ∧ (hops (forw (heap st)) k (ga_lp st) = Some p0
         ∨ hops (back (heap st)) k (ga_lp st) = Some p0
         ∨ hops (back (heap st)) k tl0 = Some p0
         ∨ hops (forw (heap st)) k buffer_head = Some p0)) as Hex.
  { intros k Hk. eexists _, p, tl. split; [exact Hcall|]. split; [|done].
    by apply (ring_back_head _ ls). }
  unfold node_at_hops.
  destruct (decide (n > ga_on st)) as [Hgt|Hle].
  - destruct (decide (n <= Z.shiftr (ga_on st + addr_last st) 1)).
    + split; [lia|]. split; [lia|]. split; [lia|]. apply Hex. left.
      apply (ring_forw_hops _ ls (Z.to_nat (ga_on st))); [done..|].
      rewrite <- Hp. f_equal. lia.
    + split; [lia|]. split; [lia|]. split; [lia|]. apply Hex. right. right. left.
      apply (ring_back_hops _ ls (length ls)); [done|lia|done|].
      rewrite <- Hp. f_equal. lia.
  - destruct (decide (n >= Z.shiftr (ga_on st) 1)).
    + split; [lia|]. split; [lia|]. split; [lia|]. apply Hex. right. left.
      apply (ring_back_hops _ ls (Z.to_nat (ga_on st))); [done|lia|done|].
      rewrite <- Hp. f_equal. lia.
    + split; [lia|]. split; [lia|]. split; [lia|]. apply Hex. right. right. right.
      apply (ring_forw_hops _ ls 0); [done..|].
      rewrite <- Hp. simpl. f_equal. lia.
Qed.

(** ** translit_text *)

Lemma init_ctab_identity : init_ctab = ascii_of_nat <$> seq 0 256.
Proof. by vm_compute. Qed.

Lemma init_translit_ok : ctab_ok init_translit.
Proof.
  unfold ctab_ok, init_translit. cbn [ctab tr_i]. rewrite init_ctab_identity.
  split; [by rewrite length_fmap, length_seq|]. split; [lia|].
  intros j Hj _. rewrite list_lookup_fmap, lookup_seq_lt by done. done.
Qed.

Lemma uchar_small (x : Z) : 0 ≤ x < 256 → uchar x = ascii_of_nat (Z.to_nat x).
Proof. intros Hx. unfold uchar. by rewrite Z.mod_small. Qed.

Lemma uchar_eq (c : ascii) (x : Z) :
  0 ≤ x < 256 → c = uchar x ↔ Z.of_nat (nat_of_ascii c) = x.
Proof.
  intros Hx. rewrite uchar_small by done. split.
  - intros ->. rewrite nat_ascii_embedding by lia. lia.
  - intros <-. by rewrite Nat2Z.id, ascii_nat_embedding.
Qed.

(** The table after the two stores of a call: the identity but for the
    entry [from], which holds [to]. *)
Lemma ctab_after_stores (ts : translit_state) (from to : Z) :
  ctab_ok ts →
  0 ≤ from < 256 →
  ∃ t2,
    ctab_store (tr_i ts) (uchar (tr_i ts)) (ctab ts)
      ≫= ctab_store from (uchar to) = Some t2
    ∧ length t2 = 256%nat
    ∧ ∀ j : nat, (j < 256)%nat →
        t2 !! j = Some (if decide (Z.of_nat j = from) then uchar to
                        else ascii_of_nat j).
Proof.
  intros (Hlen & Hi & Hid) Hfrom. unfold ctab_store.
  rewrite decide_True by done. simpl. rewrite decide_True by done.
  eexists. split; [done|]. split; [by rewrite !length_insert|].
  intros j Hj. destruct (decide (Z.of_nat j = from)) as [<-|Hne].
  - rewrite Nat2Z.id. apply list_lookup_insert_eq. rewrite length_insert. lia.
  - rewrite list_lookup_insert_ne by lia.
    destruct (decide (Z.of_nat j = tr_i ts)) as [<-|Hne'].
    + rewrite uchar_small, Nat2Z.id by lia.
      apply list_lookup_insert_eq. lia.
    + rewrite list_lookup_insert_ne by lia. by apply Hid.
Qed.

Lemma translit_loop_map (tab : list ascii) (from to : Z) (len : nat) (s : list ascii) :
  0 ≤ from < 256 →
  (∀ j : nat, (j < 256)%nat →
     tab !! j = Some (if decide (Z.of_nat j = from) then uchar to
                      else ascii_of_nat j)) →
  (len ≤ length s)%nat →
  translit_loop tab len s
  = Some (((λ c, if decide (c = uchar from) then uchar to else c) <$> take len s)
          ++ drop len s).
Proof.
  intros Hfrom Htab. revert s. induction len as [|len IH]; intros s Hlen.
  - by rewrite take_0, drop_0.
  - destruct s as [|c s]; [simpl in Hlen; lia|]. simpl in *.
    rewrite Htab by apply nat_ascii_bounded. simpl.
    rewrite IH by lia. simpl. do 2 f_equal.
    destruct (decide (Z.of_nat (nat_of_ascii c) = from)) as [Heq|Hne].
    + rewrite decide_True; [done|]. by apply uchar_eq.
    + rewrite decide_False; [by rewrite ascii_nat_embedding|].
      intros Heq. apply Hne. by apply uchar_eq.
Qed.

Lemma translit_text_spec (ts : translit_state) (s : list ascii) (len : nat)
    (from to : Z) :
  ctab_ok ts →
  0 ≤ from < 256 →
  (len ≤ length s)%nat →
  ∃ ts',
    translit_text s len from to ts
    = Some (ts',
            ((λ c, if decide (c = uchar from) then uchar to else c)
               <$> take len s) ++ drop len s)
    ∧ ctab_ok ts' ∧ tr_i ts' = from.
Proof.
  intros Hok Hfrom Hlen.
  destruct (ctab_after_stores ts from to Hok Hfrom) as (t2 & Hst & Hl2 & Ht2).
  unfold translit_text.
  destruct (ctab_store (tr_i ts) (uchar (tr_i ts)) (ctab ts)) as [t1|];
    [|done]. simpl in *. rewrite Hst. simpl.
  rewrite (translit_loop_map t2 from to len s) by done. simpl.
  eexists. split; [done|]. split; [|done].
  split; [done|]. split; [done|]. simpl. intros j Hj Hne.
  rewrite Ht2 by done. by rewrite decide_False.
Qed.

(** X10 (what translit_text does).  With the table in the state that
    init_buffers and earlier calls leave, a call with [from] in [0, 255]
    and [len] within the buffer replaces, among the first [len] bytes,
    every byte equal to [from] by [to] (as unsigned chars), and changes no
    other byte and no byte behind them.  The rule of an earlier call is
    gone, and the table is again in such a state. *)
Theorem translit_text_maps (ts : translit_state) (s : list ascii) (len : nat)
    (from to : Z) :
  ctab_ok ts →
  0 ≤ from < 256 →
  (len ≤ length s)%nat →
  ∃ ts' s',
    translit_text s len from to ts = Some (ts', s')
    ∧ length s' = length s
    ∧ (∀ k c, s !! k = Some c →
         s' !! k = Some (if decide ((k < len)%nat ∧ c = uchar from)
                         then uchar to else c))
    ∧ ctab_ok ts'.
Proof.
  intros Hok Hfrom Hlen.
  destruct (translit_text_spec ts s len from to Hok Hfrom Hlen)
    as (ts' & Hcall & Hok' & _).
  eexists _, _. split; [exact Hcall|]. split; [|split; [|done]].
  - rewrite length_app, length_fmap, length_take, length_drop. lia.
  - intros k c Hk. destruct (decide (k < len)%nat) as [Hlt|Hge].
    + rewrite lookup_app_l by (rewrite length_fmap, length_take; lia).
      rewrite list_lookup_fmap, lookup_take_lt, Hk by done. simpl.
      f_equal. destruct (decide (c = uchar from)).
      * by rewrite decide_True.
      * rewrite decide_False; [done|]. by intros [_ ?].
    + rewrite lookup_app_r by (rewrite length_fmap, length_take; lia).
      rewrite length_fmap, length_take, lookup_drop.
      replace (len + (k - len `min` length s))%nat with k by lia.
      rewrite Hk. f_equal. rewrite decide_False; [done|]. by intros [? _].
Qed.

(** X11 (translit_text back and forth).  When the byte [to] does not occur
    among the first [len] bytes, translating [from] to [to] and then [to]
    back to [from] gives the buffer as it was. *)
Theorem translit_text_round_trip (ts : translit_state) (s : list ascii)
    (len : nat) (from to : Z) :
  ctab_ok ts →
  0 ≤ from < 256 → 0 ≤ to < 256 →
  (len ≤ length s)%nat →
  uchar to ∉ take len s →
  ∃ ts1 s1 ts2,
    translit_text s len from to ts = Some (ts1, s1)
    ∧ translit_text s1 len to from ts1 = Some (ts2, s).
Proof.
  intros Hok Hfrom Hto Hlen Hnin.
  destruct (translit_text_spec ts s len from to Hok Hfrom Hlen)
    as (ts1 & Hcall1 & Hok1 & _).
  set (s1 := ((λ c, if decide (c = uchar from) then uchar to else c)
                <$> take len s) ++ drop len s) in *.
  assert (length ((λ c, if decide (c = uchar from) then uchar to else c)
                    <$> take len s) = len) as Hl
    by (rewrite length_fmap, length_take; lia).
  assert (len ≤ length s1)%nat as Hlen1
    by (unfold s1; rewrite length_app, Hl; lia).
  destruct (translit_text_spec ts1 s1 len to from Hok1 Hto Hlen1)
    as (ts2 & Hcall2 & _).
  exists ts1, s1, ts2. split; [done|]. rewrite Hcall2. do 2 f_equal.
  unfold s1 at 1 2. rewrite take_app_length', drop_app_length' by done.
  rewrite <- (take_drop len s) at 3. f_equal.
  rewrite <- list_fmap_compose.
  rewrite <- (list_fmap_id (take len s)) at 2.
  apply list_fmap_ext. intros i c Hc. simpl.
  assert (c ≠ uchar to) as Hne.
  { intros ->. apply Hnin. by eapply list_elem_of_lookup_2. }
  destruct (decide (c = uchar from)) as [->|Hnf].
  - by rewrite decide_True.
  - by rewrite decide_False.
Qed.

(** ** Reads that cannot succeed, writes that failed *)


Lemma put_sbuf_write_None_flag (e : env) (lp : ptr) (t rest : list ascii)
    (st st' : ed_state) :
  put_sbuf_write e lp t rest st = Some (st', None) →
  seek_write st' = seek_write st.
Proof.
  unfold put_sbuf_write. intros Hput.
  destruct (sfp st) as [|f|] eqn:Hsfp; simpl in Hput; try done.
  destruct (decide (length (take (transfer e (length t)) t) ≠ length t)).
  - unfold put_sbuf_fail in Hput. by simplify_eq/=.
  - destruct (store_llen lp _ _) as [h1|]; [|done]. simpl in Hput.
    destruct (store_adr lp _ h1) as [h2|]; [|done]. simpl in Hput.
    match type of Hput with
    | add_line_node _ ?s ≫= _ = _ =>
        destruct (add_line_node lp s) as [st2|]; [|done]
    end.
    done.
Qed.

(** After a write that failed the cursor is -1 and no seek is pending. *)
Lemma put_sbuf_line_write_failed (LINECHARS : Z) (e : env) (cs : list ascii)
    (st st' : ed_state) :
  put_sbuf_line LINECHARS e cs st = Some (st', None) →
  errmsg st' = "cannot write temp file"%string →
  sfpos st' = -1 ∧ seek_write st' = false.
Proof.
  unfold put_sbuf_line. intros Hput Hmsg.
  destruct (malloc e (heap st)) as [lp|]; [|by simplify_eq/=].
  destruct (scan_line cs) as [[t rest]|]; [|done]. simpl in Hput.
  destruct (decide (Z.of_nat (length t) >= LINECHARS));
    [unfold put_sbuf_fail in Hput; by simplify_eq/=|].
  destruct (seek_write st) eqn:Hsw.
  - destruct (sfp st) as [|f|]; simpl in Hput; try done.
    destruct (do_fseek e f 0 SEEK_END);
      [|unfold put_sbuf_fail in Hput; by simplify_eq/=].
    pose proof (put_sbuf_write_None_flag _ _ _ _ _ _ Hput) as Hfl.
    apply put_sbuf_write_None in Hput as [? _]. done.
  - pose proof (put_sbuf_write_None_flag _ _ _ _ _ _ Hput) as Hfl.
    apply put_sbuf_write_None in Hput as [? _]. simpl in Hfl. by rewrite Hfl.
Qed.

(** A node whose offset is -1 cannot be read while the cursor is not -1:
    get_sbuf_line seeks to the offset, and the seek fails. *)
Lemma get_sbuf_line_negative_offset (e : env) (lp : ptr) (nd : line_t)
    (st st' : ed_state) (r : option (list ascii)) :
  heap st !! lp = Some nd →
  adr nd = -1 →
  sfpos st ≠ -1 →
  get_sbuf_line e lp st = Some (st', r) →
  r = None.
Proof.
  intros Hnd Hadr Hpos Hget. destruct r as [bs|]; [|done]. exfalso.
  apply get_sbuf_line_Some in Hget
    as (nd' & f & pos & _ & Hnd' & _ & Hcase & _).
  rewrite Hnd in Hnd'. injection Hnd' as <-.
  destruct Hcase as [[-> ?]|[_ ?]]; lia.
Qed.

(** X13 (the line after a failed write).  After a put_sbuf_line that failed
    in its write, the cursor is -1 and no seek is pending.  A put_sbuf_line
    that follows at once and succeeds does not seek: its node gets the
    offset -1.  A get_sbuf_line on that node returns NULL, in every
    environment, in the state the append leaves if the line is not empty,
    and in every state in which the node has the offset -1 and the cursor
    is not -1, so wherever the cursor is the real position: the seek to
    the offset -1 fails. *)
Theorem line_after_failed_write_is_lost (LINECHARS : Z) (e1 e2 : env)
    (cs1 cs2 : list ascii) (st st1 st2 : ed_state) (rest : list ascii) :
  put_sbuf_line LINECHARS e1 cs1 st = Some (st1, None) →
  errmsg st1 = "cannot write temp file"%string →
  put_sbuf_line LINECHARS e2 cs2 st1 = Some (st2, Some rest) →
  ∃ lp t,
    scan_line cs2 = Some (t, rest)
    ∧ heap st1 !! lp = None
    ∧ descriptor (heap st2) lp = Some (-1, Z.of_nat (length t))
    ∧ (t ≠ [] → ∀ e3 st3 r, get_sbuf_line e3 lp st2 = Some (st3, r) → r = None)
    ∧ (∀ s nd e3 st3 r,
         heap s !! lp = Some nd → adr nd = -1 →
         sfpos s ≠ -1 ∨ cursor_ok s →
         get_sbuf_line e3 lp s = Some (st3, r) → r = None).
Proof.
  intros Hput1 Hmsg Hput2.
  destruct (put_sbuf_line_write_failed _ _ _ _ _ Hput1 Hmsg) as [Hpos Hsw].
  apply put_sbuf_line_Some in Hput2
    as (lp & t & g & Hm & Hscan & _ & Hd & _ & Hpos2 & _ & _ & _ & Hsfp2).
  unfold cursor_before_write in Hd, Hpos2. rewrite Hsw, Hpos in Hd, Hpos2.
  apply malloc_Some in Hm as [_ Hnone].
  exists lp, t. split; [done|]. split; [done|]. split; [done|]. split.
  - intros Hne e3 st3 r Hget.
    unfold descriptor in Hd.
    destruct (heap st2 !! lp) as [nd|] eqn:Hnd; [|done]. simpl in Hd.
    injection Hd as Hadr Hlen.
    apply (get_sbuf_line_negative_offset e3 lp nd st2 st3 r); try done.
    destruct t; [done|]. simpl in *. lia.
  - intros s nd e3 st3 r Hnd Hadr Hcur Hget.
    apply (get_sbuf_line_negative_offset e3 lp nd s st3 r); try done.
    destruct Hcur as [?|Hok]; [done|].
    apply cursor_ok_nonneg in Hok. lia.
Qed.

(** X14 (input and output in place do not seek).  A put_sbuf_line with no
    seek pending, and a get_sbuf_line of a line at whose offset the cursor
    already is, do the same whether the environment lets a seek succeed or
    not: they do not call it.  A put_sbuf_line that succeeds leaves no seek
    pending, and a get_sbuf_line that succeeds leaves the cursor behind
    the line it read; so an append after an append, and a read of the line
    stored right behind the one just read, do not seek. *)
Theorem io_in_place_does_not_seek (LINECHARS : Z)
    (m rl : bool) (io : option nat) (fc mk fd : bool) (st : ed_state) :
  (∀ cs, seek_write st = false →
     put_sbuf_line LINECHARS (Env m true rl io fc mk fd) cs st
     = put_sbuf_line LINECHARS (Env m false rl io fc mk fd) cs st)
  ∧ (∀ lp nd, heap st !! lp = Some nd → sfpos st = adr nd →
       get_sbuf_line (Env m true rl io fc mk fd) lp st
       = get_sbuf_line (Env m false rl io fc mk fd) lp st)
  ∧ (∀ e cs st' rest,
       put_sbuf_line LINECHARS e cs st = Some (st', Some rest) →
       seek_write st' = false)
  ∧ (∀ e lp nd st' bs,
       heap st !! lp = Some nd →
       get_sbuf_line e lp st = Some (st', Some bs) →
       sfpos st' = adr nd + llen nd).
Proof.
  split; [|split; [|split]].
  - intros cs Hsw. unfold put_sbuf_line, malloc. simpl.
    destruct m; [done|]. simpl. rewrite Hsw.
    destruct (scan_line cs) as [[t rest]|]; [|done]. simpl.
    destruct (decide (Z.of_nat (length t) >= LINECHARS)); [done|].
    reflexivity.
  - intros lp nd Hnd Hcur. unfold get_sbuf_line.
    destruct (decide (lp = buffer_head)); [done|]. simpl.
    rewrite Hnd. simpl. rewrite !decide_False by (intros Hne; by apply Hne).
    reflexivity.
  - intros e cs st' rest Hput.
    by apply put_sbuf_line_Some in Hput as (? & ? & ? & _ & _ & _ & _ & _ & _ & ? & _).
  - intros e lp nd st' bs Hnd Hget.
    apply get_sbuf_line_Some in Hget
      as (nd' & g & pos & _ & Hnd' & _ & _ & _ & _ & _ & Hpos & _).
    rewrite Hnd in Hnd'. by injection Hnd' as <-.
Qed.

(** X15 (reading again after a failed seek).  When get_sbuf_line fails in
    its seek, the cursor already holds the offset of the line while the
    stream has not moved.  A get_sbuf_line on the same line that follows
    does not seek, and whenever it returns text, the text is the bytes at
    the position where the stream stood before the first call, not the
    bytes at the offset of the line. *)
Theorem reread_after_failed_seek (e1 e2 : env) (lp : ptr) (nd : line_t)
    (f : file) (st st1 st2 : ed_state) (bs : list ascii) :
  heap st !! lp = Some nd →
  sfp st = OpenStream f →
  get_sbuf_line e1 lp st = Some (st1, None) →
  errmsg st1 = "cannot seek temp file"%string →
  get_sbuf_line e2 lp st1 = Some (st2, Some bs) →
  sfpos st1 = adr nd
  ∧ sfp st1 = OpenStream f
  ∧ bs = take (Z.to_nat (llen nd)) (drop (Z.to_nat (f_pos f)) (f_data f)).
Proof.
  intros Hnd Hsfp Hget1 Hmsg Hget2.
  assert (lp ≠ buffer_head) as Hhd.
  { intros ->. unfold get_sbuf_line in Hget1, Hget2.
    rewrite decide_True in Hget1, Hget2 by done. by simplify_eq. }
  assert (st1 = seterrmsg "cannot seek temp file"
                  (set_sfpos (adr nd) (set_seek_write true st))) as ->.
  { assert (∀ s, get_sbuf_read e1 (llen nd) s = Some (st1, None) → False)
      as Hread.
    { intros s. unfold get_sbuf_read. destruct (realloc_fails e1).
      - intros Heq. by simplify_eq/=.
      - destruct (sfp s); simpl; try done.
        case_decide; intros Heq; by simplify_eq/=. }
    unfold get_sbuf_line in Hget1. rewrite decide_False in Hget1 by done.
    simpl in Hget1. rewrite Hnd in Hget1. simpl in Hget1.
    destruct (decide (sfpos st ≠ adr nd)); [|by apply Hread in Hget1].
    rewrite Hsfp in Hget1. simpl in Hget1.
    destruct (do_fseek e1 f (adr nd) SEEK_SET); [by apply Hread in Hget1|].
    by simplify_eq. }
  split; [done|]. split; [done|].
  unfold get_sbuf_line in Hget2. rewrite decide_False in Hget2 by done.
  simpl in Hget2. rewrite Hnd in Hget2. simpl in Hget2.
  rewrite decide_False in Hget2 by (intros Hne; by apply Hne).
  apply get_sbuf_read_Some in Hget2 as (g & Hg & -> & _).
  simpl in Hg. rewrite Hsfp in Hg. by injection Hg as <-.
Qed.

(** ** The further properties at concrete states *)

Lemma failed_write_reached :
  put_sbuf_line 100 write_fault (text "abc" ++ [newline]) fresh_state
  = Some (failed_write, None).
Proof. by vm_compute. Qed.


Lemma valid_hello_world :
  Forall (valid_line 100) [text "hello"; text "world"].
Proof.
  repeat constructor; try (simpl; lia);
    apply (bool_decide_unpack _); by vm_compute.
Qed.

Lemma run_two_appends :
  run_calls 100 [Put no_faults (text "hello" ++ [newline]);
                 Put no_faults (text "world" ++ [newline])] fresh_state
  = Some two_lines.
Proof. by vm_compute. Qed.

Lemma run_two_reads :
  run_calls 100 [Get no_faults 2%nat; Get no_faults 3%nat] two_lines
  = Some (set_seek_write true two_lines).
Proof. by vm_compute. Qed.

(** A failed append of "abc" to the fresh state leaves the registry of the
    fresh state. *)
Lemma put_failure_keeps_registry_abc :
  put_sbuf_line 100 write_fault (text "abc" ++ [newline]) fresh_state
  = Some (failed_write, None)
  ∧ heap failed_write = heap fresh_state
  ∧ addr_last failed_write = addr_last fresh_state
  ∧ current_addr failed_write = current_addr fresh_state
  ∧ ga_lp failed_write = ga_lp fresh_state
  ∧ ga_on failed_write = ga_on fresh_state
  ∧ errmsg failed_write ∈ ["out of memory"; "line too long";
                           "cannot seek temp file";
                           "cannot write temp file"]%string.
Proof.
  split; [apply failed_write_reached|].
  apply (put_sbuf_line_failure_keeps_registry 100 write_fault
           (text "abc" ++ [newline]) fresh_state failed_write).
  apply failed_write_reached.
Defined.

(** Two reads in the state holding two lines. *)
Lemma reads_change_nothing_two_lines :
  Forall (λ c, ∃ e lp, c = Get e lp) [Get no_faults 2%nat; Get no_faults 3%nat]
  ∧ run_calls 100 [Get no_faults 2%nat; Get no_faults 3%nat] two_lines
    = Some (set_seek_write true two_lines)
  ∧ heap (set_seek_write true two_lines) = heap two_lines
  ∧ addr_last (set_seek_write true two_lines) = addr_last two_lines
  ∧ current_addr (set_seek_write true two_lines) = current_addr two_lines
  ∧ ga_lp (set_seek_write true two_lines) = ga_lp two_lines
  ∧ ga_on (set_seek_write true two_lines) = ga_on two_lines
  ∧ (∀ f, sfp two_lines = OpenStream f →
          ∃ pos, sfp (set_seek_write true two_lines)
                 = OpenStream (File (f_data f) pos)).
Proof.
  assert (Forall (λ c, ∃ e lp, c = Get e lp)
            [Get no_faults 2%nat; Get no_faults 3%nat]) as Hall
    by (repeat constructor; eauto).
  split; [exact Hall|]. split; [apply run_two_reads|].
  apply (reads_change_nothing 100 _ two_lines _ Hall run_two_reads).
Defined.

(** init_buffers without faults. *)
Lemma init_buffers_outcome_no_faults :
  -2 < 0
  ∧ init_buffers (-2) no_faults boot_state
    = if malloc_fails no_faults || mkstemp_fails no_faults
         || fdopen_fails no_faults
      then None else Some fresh_state.
Proof.
  split; [lia|]. apply (init_buffers_outcome (-2) no_faults). lia.
Defined.

(** quit after two appends. *)
Lemma quit_after_two_appends :
  init_buffers (-2) no_faults boot_state = Some fresh_state
  ∧ run_calls 100 [Put no_faults (text "hello" ++ [newline]);
                   Put no_faults (text "world" ++ [newline])] fresh_state
    = Some two_lines
  ∧ sfn_linked two_lines = true
  ∧ ∃ st', quit 0 two_lines = Some (st', 0) ∧ sfn_linked st' = false.
Proof.
  split; [apply init_buffers_no_faults|]. split; [apply run_two_appends|].
  apply (quit_removes_scratch_file (-2) 100 no_faults
           [Put no_faults (text "hello" ++ [newline]);
            Put no_faults (text "world" ++ [newline])] fresh_state two_lines 0).
  - lia.
  - apply init_buffers_no_faults.
  - apply run_two_appends.
Defined.

(** close_sbuf and open_sbuf without faults in the state holding two
    lines. *)
Lemma close_then_open_two_lines :
  sfp two_lines = OpenStream (File (text "helloworld") 10)
  ∧ fclose_fails no_faults = false
  ∧ ∃ st1,
      close_sbuf (-2) no_faults two_lines = Some (st1, 0)
      ∧ sfn_linked st1 = false
      ∧ heap (open_sbuf (-2) no_faults st1).1 = heap two_lines
      ∧ addr_last (open_sbuf (-2) no_faults st1).1 = addr_last two_lines
      ∧ if mkstemp_fails no_faults || fdopen_fails no_faults then
          (open_sbuf (-2) no_faults st1).2 = -2
          ∧ errmsg (open_sbuf (-2) no_faults st1).1
            = "cannot open temp file"%string
          ∧ sfp (open_sbuf (-2) no_faults st1).1 = NoStream
          ∧ sfn_linked (open_sbuf (-2) no_faults st1).1 = false
        else
          (open_sbuf (-2) no_faults st1).2 = 0
          ∧ sfp (open_sbuf (-2) no_faults st1).1 = OpenStream (File [] 0)
          ∧ sfn_linked (open_sbuf (-2) no_faults st1).1 = true
          ∧ cursor_ok (open_sbuf (-2) no_faults st1).1
          ∧ store_ready (open_sbuf (-2) no_faults st1).1.
Proof.
  split; [reflexivity|]. split; [reflexivity|].
  apply (close_then_open (-2) no_faults no_faults two_lines
           (File (text "helloworld") 10)); reflexivity.
Defined.


(** "hello" and "world" appended in order and read back. *)
Lemma sequential_append_hello_world :
  Forall (valid_line 100) [text "hello"; text "world"]
  ∧ ∃ st ls,
      append_lines 100 [text "hello"; text "world"] fresh_state = Some st
      ∧ registry_ok st ls
      ∧ addr_last st = Z.of_nat (length [text "hello"; text "world"])
      ∧ current_addr st = Z.of_nat (length [text "hello"; text "world"])
      ∧ ∀ k t, [text "hello"; text "world"] !! k = Some t →
          ∃ st1 p st2,
            get_addressed_line_node (Z.of_nat k + 1) st = Some (st1, p)
            ∧ ls !! k = Some p
            ∧ get_sbuf_line no_faults p st1 = Some (st2, Some t).
Proof.
  split; [apply valid_hello_world|].
  apply (sequential_append_reads_back 100). apply valid_hello_world.
Defined.

Lemma pending_node_registry_ok : registry_ok pending_node [2%nat; 3%nat].
Proof.
  unfold registry_ok, ring. repeat split; try by vm_compute.
  apply (bool_decide_unpack _). by vm_compute.
Qed.

Lemma reopened_reached :
  ∃ st1, close_sbuf (-2) no_faults two_lines = Some (st1, 0)
         ∧ open_sbuf (-2) no_faults st1 = (reopened, 0).
Proof. eexists. split; [reflexivity|]. by vm_compute. Qed.

Lemma read_one_reached :
  get_sbuf_line no_faults 2%nat two_lines = Some (read_one, Some (text "hello")).
Proof. by vm_compute. Qed.

Lemma lost_line_reached :
  put_sbuf_line 100 no_faults (text "hello" ++ [newline]) failed_write
  = Some (lost_line, Some []).
Proof. by vm_compute. Qed.

(** A third line linked after line 1 of two. *)
Lemma add_line_node_position_middle :
  registry_ok pending_node [2%nat; 3%nat]
  ∧ 4%nat ∈ dom (heap pending_node)
  ∧ (4%nat ∉ buffer_head :: [2%nat; 3%nat])
  ∧ 0 ≤ current_addr pending_node ≤ addr_last pending_node
  ∧ ∃ st',
      add_line_node 4%nat pending_node = Some st'
      ∧ addr_last st' = addr_last pending_node + 1
      ∧ current_addr st' = current_addr pending_node + 1
      ∧ linear_node_at (heap st') (current_addr st') = Some 4%nat
      ∧ (∀ k, 0 ≤ k ≤ current_addr pending_node →
           linear_node_at (heap st') k = linear_node_at (heap pending_node) k)
      ∧ (∀ k, current_addr pending_node < k ≤ addr_last pending_node →
           linear_node_at (heap st') (k + 1)
           = linear_node_at (heap pending_node) k).
Proof.
  assert (4%nat ∈ dom (heap pending_node)) as Hdom
    by (apply (bool_decide_unpack _); by vm_compute).
  assert (4%nat ∉ buffer_head :: [2%nat; 3%nat]) as Hnin
    by (apply (bool_decide_unpack _); by vm_compute).
  assert (0 ≤ current_addr pending_node ≤ addr_last pending_node) as Hcur
    by (simpl; lia).
  split; [apply pending_node_registry_ok|]. split; [exact Hdom|].
  split; [exact Hnin|]. split; [exact Hcur|].
  apply (add_line_node_position pending_node [2%nat; 3%nat] 4%nat
           pending_node_registry_ok Hdom Hnin Hcur).
Defined.

(** The lookup of line 2 in the state holding two lines, whose cache is
    at line 1. *)
Lemma node_at_hop_bound_two_lines :
  registry_ok two_lines [2%nat; 3%nat]
  ∧ 0 ≤ 2 ≤ addr_last two_lines
  ∧ Z.of_nat (node_at_hops 2 two_lines) ≤ Z.abs (2 - ga_on two_lines)
  ∧ Z.of_nat (node_at_hops 2 two_lines) ≤ addr_last two_lines - 2
  ∧ Z.of_nat (node_at_hops 2 two_lines) ≤ 2 + 1
  ∧ ∃ st' p tl,
      get_addressed_line_node 2 two_lines = Some (st', p)
      ∧ back (heap two_lines) buffer_head = Some tl
      ∧ (hops (forw (heap two_lines)) (node_at_hops 2 two_lines)
              (ga_lp two_lines) = Some p
         ∨ hops (back (heap two_lines)) (node_at_hops 2 two_lines)
                (ga_lp two_lines) = Some p
         ∨ hops (back (heap two_lines)) (node_at_hops 2 two_lines) tl = Some p
         ∨ hops (forw (heap two_lines)) (node_at_hops 2 two_lines)
                buffer_head = Some p).
Proof.
  assert (0 ≤ 2 ≤ addr_last two_lines) as Hn by (simpl; lia).
  split; [apply two_lines_registry_ok|]. split; [exact Hn|].
  apply (node_at_hop_bound two_lines [2%nat; 3%nat] 2
           two_lines_registry_ok Hn).
Defined.

(** The l of "hello" translated to L, with the table of init_buffers. *)
Lemma translit_text_maps_hello :
  ctab_ok init_translit
  ∧ 0 ≤ 108 < 256
  ∧ (5 ≤ length (text "hello"))%nat
  ∧ ∃ ts' s',
      translit_text (text "hello") 5 108 76 init_translit = Some (ts', s')
      ∧ length s' = length (text "hello")
      ∧ (∀ k c, text "hello" !! k = Some c →
           s' !! k = Some (if decide ((k < 5)%nat ∧ c = uchar 108)
                           then uchar 76 else c))
      ∧ ctab_ok ts'.
Proof.
  assert (0 ≤ 108 < 256) as Hfrom by lia.
  assert (5 ≤ length (text "hello"))%nat as Hlen by (simpl; lia).
  split; [apply init_translit_ok|]. split; [exact Hfrom|]. split; [exact Hlen|].
  apply (translit_text_maps init_translit (text "hello") 5 108 76
           init_translit_ok Hfrom Hlen).
Defined.

(** The l of "hello" translated to L and back. *)
Lemma translit_text_round_trip_hello :
  ctab_ok init_translit
  ∧ 0 ≤ 108 < 256 ∧ 0 ≤ 76 < 256
  ∧ (5 ≤ length (text "hello"))%nat
  ∧ (uchar 76 ∉ take 5 (text "hello"))
  ∧ ∃ ts1 s1 ts2,
      translit_text (text "hello") 5 108 76 init_translit = Some (ts1, s1)
      ∧ translit_text s1 5 76 108 ts1 = Some (ts2, text "hello").
Proof.
  assert (0 ≤ 108 < 256) as Hfrom by lia.
  assert (0 ≤ 76 < 256) as Hto by lia.
  assert (5 ≤ length (text "hello"))%nat as Hlen by (simpl; lia).
  assert (uchar 76 ∉ take 5 (text "hello")) as Hnin
    by (apply (bool_decide_unpack _); by vm_compute).
  split; [apply init_translit_ok|]. split; [exact Hfrom|]. split; [exact Hto|].
  split; [exact Hlen|]. split; [exact Hnin|].
  apply (translit_text_round_trip init_translit (text "hello") 5 108 76
           init_translit_ok Hfrom Hto Hlen Hnin).
Defined.


(** "hello" appended after the failed append of "abc", and read at once
    without faults. *)
Lemma line_after_failed_write_hello :
  put_sbuf_line 100 write_fault (text "abc" ++ [newline]) fresh_state
  = Some (failed_write, None)
  ∧ errmsg failed_write = "cannot write temp file"%string
  ∧ put_sbuf_line 100 no_faults (text "hello" ++ [newline]) failed_write
    = Some (lost_line, Some [])
  ∧ get_sbuf_line no_faults 2%nat lost_line
    = Some (seterrmsg "cannot seek temp file"
              (set_sfpos (-1) (set_seek_write true lost_line)), None)
  ∧ ∃ lp t,
      scan_line (text "hello" ++ [newline]) = Some (t, [])
      ∧ heap failed_write !! lp = None
      ∧ descriptor (heap lost_line) lp = Some (-1, Z.of_nat (length t))
      ∧ (t ≠ [] → ∀ e3 st3 r,
           get_sbuf_line e3 lp lost_line = Some (st3, r) → r = None)
      ∧ (∀ s nd e3 st3 r,
           heap s !! lp = Some nd → adr nd = -1 →
           sfpos s ≠ -1 ∨ cursor_ok s →
           get_sbuf_line e3 lp s = Some (st3, r) → r = None).
Proof.
  split; [apply failed_write_reached|]. split; [reflexivity|].
  split; [apply lost_line_reached|]. split; [by vm_compute|].
  apply (line_after_failed_write_is_lost 100 write_fault no_faults
           (text "abc" ++ [newline]) (text "hello" ++ [newline])
           fresh_state failed_write lost_line []).
  - apply failed_write_reached.
  - reflexivity.
  - apply lost_line_reached.
Defined.

(** The second append of two does not seek, nor does the read of line 2
    after line 1. *)
Lemma io_in_place_one_line :
  put_sbuf_line 100 seek_fault (text "world" ++ [newline]) one_line
  = put_sbuf_line 100 no_faults (text "world" ++ [newline]) one_line
  ∧ get_sbuf_line seek_fault 3%nat read_one
    = Some (set_sfpos 10
              (set_sfp (OpenStream (File (text "helloworld") 10)) read_one),
            Some (text "world")).
Proof.
  split.
  - apply (proj1 (io_in_place_does_not_seek 100 false false None false
                    false false one_line)). reflexivity.
  - by vm_compute.
Defined.

(** Line 1 read again after a failed seek to it: with the stream behind
    line 1, the text of line 2 is returned. *)
Lemma reread_after_failed_seek_line_1 :
  get_sbuf_line seek_fault 2%nat read_one
  = Some (seterrmsg "cannot seek temp file" (set_sfpos 0 read_one), None)
  ∧ get_sbuf_line no_faults 2%nat
      (seterrmsg "cannot seek temp file" (set_sfpos 0 read_one))
    = Some (State (OpenStream (File (text "helloworld") 10)) 5 true
                  (heap two_lines) 2 2 2%nat 1 "cannot seek temp file" true,
            Some (text "world"))
  ∧ sfpos (seterrmsg "cannot seek temp file" (set_sfpos 0 read_one))
    = adr (Line 3%nat buffer_head 0 5)
  ∧ sfp (seterrmsg "cannot seek temp file" (set_sfpos 0 read_one))
    = OpenStream (File (text "helloworld") 5)
  ∧ text "world"
    = take (Z.to_nat (llen (Line 3%nat buffer_head 0 5)))
        (drop (Z.to_nat (f_pos (File (text "helloworld") 5)))
           (f_data (File (text "helloworld") 5))).
Proof.
  assert (get_sbuf_line seek_fault 2%nat read_one
          = Some (seterrmsg "cannot seek temp file" (set_sfpos 0 read_one),
                  None)) as H1 by (by vm_compute).
  assert (get_sbuf_line no_faults 2%nat
            (seterrmsg "cannot seek temp file" (set_sfpos 0 read_one))
          = Some (State (OpenStream (File (text "helloworld") 10)) 5 true
                    (heap two_lines) 2 2 2%nat 1 "cannot seek temp file" true,
                  Some (text "world"))) as H2 by (by vm_compute).
  split; [exact H1|]. split; [exact H2|].
  apply (reread_after_failed_seek seek_fault no_faults 2%nat
           (Line 3%nat buffer_head 0 5) (File (text "helloworld") 5)
           read_one _ _ (text "world") eq_refl eq_refl H1 eq_refl H2).
Defined.
